(** * The JSON Schema flattener of [src/ooapi/schema_visualizer.py]

    A shallow embedding of [JSONSchemaVisualizer]: the document loader
    ([load_schema]), the reference resolver ([resolve_reference]), the
    cardinality and type-signature derivers ([get_cardinality],
    [get_type_string]) and the recursive walker ([parse_schema]), followed
    by the properties the specification states about them.

    Modelling choices.
    - A loaded document is a [json] value: what [json.load] returns, and
      what [yaml.safe_load] returns on the JSON-compatible part of YAML.
      Numbers are integers (the only numbers JSON Schema keywords such as
      [minItems] take); a Python [dict] is an association list in insertion
      order, looked up at the first entry of a key.
    - A string is a sequence of characters, one [ascii] per character.
    - Python is dynamically typed, so every operation the source applies to
      a loaded value is modelled on all of [json], with the exception
      Python raises where the value has the wrong shape ([res]).
    - The visualizer object is threaded explicitly ([visualizer]); console
      output and file accesses are recorded in its [trace].  The walker is
      recursive through reference resolution, so it takes fuel:
      [OutOfFuel] for every amount of fuel is unbounded recursion.  The
      interpreter's own recursion limit is not modelled.
    - The file system does not change during a run: what resolving,
      opening and parsing a path gives is a function of the path
      ([fs_read]). *)

From Stdlib Require Import Ascii.
From stdpp Require Import gmap strings list pretty.

Open Scope string_scope.

(** ** Documents *)

#[local] Set Warnings "-register-all".

Inductive json : Type :=
| JNull
| JBool (b : bool)
| JNum (n : Z)
| JStr (s : string)
| JArr (xs : list json)
| JObj (kvs : list (string * json)).

(** [d.get(k)] on the association list of a dict: [None] when absent. *)
Fixpoint dict_get (k : string) (kvs : list (string * json)) : option json :=
  match kvs with
  | [] => None
  | (k', v) :: rest => if String.eqb k' k then Some v else dict_get k rest
  end.

Definition dict_has (k : string) (kvs : list (string * json)) : bool :=
  match dict_get k kvs with Some _ => true | None => false end.

(** [dict_get] followed by [f], written as a local fixpoint so that a
    structurally recursive [f] may be handed to it. *)
Definition dict_find {B : Type} (f : json -> B) (k : string)
  : list (string * json) -> option B :=
  fix go (kvs : list (string * json)) : option B :=
    match kvs with
    | [] => None
    | (k', v) :: rest => if String.eqb k' k then Some (f v) else go rest
    end.

(** Size of a document, the measure of the walker's recursion. *)
Fixpoint json_size (v : json) : nat :=
  match v with
  | JArr xs => S (list_sum (map json_size xs))
  | JObj kvs => S (list_sum (map (fun kv => json_size (snd kv)) kvs))
  | _ => 1
  end.

(** ** Python strings *)

(** [sub in s] on two strings. *)
Fixpoint str_contains (sub s : string) : bool :=
  String.prefix sub s
  || match s with
     | EmptyString => false
     | String _ s' => str_contains sub s'
     end.

(** [s[n:]] *)
Fixpoint str_drop (n : nat) (s : string) : string :=
  match n, s with
  | S n', String _ s' => str_drop n' s'
  | _, _ => s
  end.

(** [s.split(c)] for a one-character separator: never the empty list. *)
Fixpoint str_split (c : Ascii.ascii) (s : string) : list string :=
  match s with
  | EmptyString => [EmptyString]
  | String a s' =>
      if Ascii.eqb a c then EmptyString :: str_split c s'
      else match str_split c s' with
           | h :: t => String a h :: t
           | [] => [String a EmptyString]
           end
  end.

(** [s.split(sep, 1)] when [sep in s]: the text before and after the first
    occurrence of [sep]; [None] when [sep] does not occur. *)
Fixpoint str_split_once (sep s : string) : option (string * string) :=
  if String.prefix sep s then Some (EmptyString, str_drop (String.length sep) s)
  else match s with
       | EmptyString => None
       | String a s' =>
           match str_split_once sep s' with
           | Some (before, after) => Some (String a before, after)
           | None => None
           end
       end.

(** [sep.join(parts)] *)
Definition str_join (sep : string) (parts : list string) : string :=
  String.concat sep parts.

(** ** Python's dynamic operations on loaded values *)

Inductive exn : Type :=
| TypeError | AttributeError | KeyError
| ValueError | RuntimeError | OSError.

(** Result of an expression that has no effect on the visualizer. *)
Inductive res (A : Type) : Type :=
| Val (a : A)
| Exc (e : exn).
Arguments Val {A} a.
Arguments Exc {A} e.

Global Instance res_ret : MRet res := fun A a => Val a.
Global Instance res_bind : MBind res := fun A B k r =>
  match r with
  | Val a => k a
  | Exc e => Exc e
  end.

(** [v == s] for a string literal [s]. *)
Definition is_str (v : json) (s : string) : bool :=
  match v with
  | JStr s' => String.eqb s' s
  | _ => false
  end.

(** [v is None] *)
Definition is_none (v : json) : bool :=
  match v with JNull => true | _ => false end.

(** [k in c] for a string [k]: key of a dict, element of a list, substring
    of a string; [None], booleans and numbers are not iterable. *)
Definition py_in (k : string) (c : json) : res bool :=
  match c with
  | JObj kvs => Val (dict_has k kvs)
  | JArr xs => Val (existsb (fun x => is_str x k) xs)
  | JStr s => Val (str_contains k s)
  | _ => Exc TypeError
  end.

(** [c[k]] for a string [k]: only a dict can be indexed by a string. *)
Definition py_getitem (c : json) (k : string) : res json :=
  match c with
  | JObj kvs =>
      match dict_get k kvs with
      | Some v => Val v
      | None => Exc KeyError
      end
  | _ => Exc TypeError
  end.

(** [c.get(k, default)]: only a dict has [get]. *)
Definition py_get (c : json) (k : string) (default : json) : res json :=
  match c with
  | JObj kvs =>
      match dict_get k kvs with
      | Some v => Val v
      | None => Val default
      end
  | _ => Exc AttributeError
  end.

(** [c.items()] *)
Definition py_items (c : json) : res (list (string * json)) :=
  match c with
  | JObj kvs => Val kvs
  | _ => Exc AttributeError
  end.

Definition chars (s : string) : list json :=
  map (fun a => JStr (String a EmptyString)) (String.list_ascii_of_string s).

(** Iterating [c] ([enumerate(c)], [map(str, c)]): elements of a list, keys
    of a dict, characters of a string. *)
Definition py_iter (c : json) : res (list json) :=
  match c with
  | JArr xs => Val xs
  | JObj kvs => Val (map (fun kv => JStr (fst kv)) kvs)
  | JStr s => Val (chars s)
  | _ => Exc TypeError
  end.

(** [len(c)] *)
Definition py_len (c : json) : res nat :=
  match c with
  | JArr xs => Val (length xs)
  | JObj kvs => Val (length kvs)
  | JStr s => Val (String.length s)
  | _ => Exc TypeError
  end.

(** Truth value of [v] in a condition. *)
Definition py_truthy (v : json) : bool :=
  match v with
  | JNull => false
  | JBool b => b
  | JNum n => negb (Z.eqb n 0)
  | JStr s => negb (String.eqb s EmptyString)
  | JArr xs => match xs with [] => false | _ => true end
  | JObj kvs => match kvs with [] => false | _ => true end
  end.

(** [v > 0]: defined on numbers and booleans ([True] is 1). *)
Definition py_gt0 (v : json) : res bool :=
  match v with
  | JNum n => Val (Z.ltb 0 n)
  | JBool b => Val b
  | _ => Exc TypeError
  end.

(** What a [set] holds for a hashable value: equal values are one
    element, and [True == 1], [False == 0]. *)
Inductive atom : Type :=
| AStr (s : string)
| ANone
| AInt (n : Z).

Global Instance atom_eq_dec : EqDecision atom.
Proof. solve_decision. Defined.

Global Instance atom_countable : Countable atom.
Proof.
  refine (inj_countable'
            (fun a => match a with
                      | AStr s => inl s
                      | ANone => inr None
                      | AInt n => inr (Some n)
                      end)
            (fun x => match x with
                      | inl s => AStr s
                      | inr None => ANone
                      | inr (Some n) => AInt n
                      end) _).
  by intros [].
Defined.

(** [hash(v)], as [v in s], [s.add(v)] and [s.discard(v)] need it on a set
    [s]: a list or a dict is unhashable. *)
Definition py_hash (v : json) : res atom :=
  match v with
  | JStr s => Val (AStr s)
  | JNull => Val ANone
  | JBool b => Val (AInt (if b then 1 else 0))
  | JNum n => Val (AInt n)
  | JArr _ | JObj _ => Exc TypeError
  end.

(** [v.startswith], [v.split]: the receiver of a [str] method; no other
    loaded value has these attributes. *)
Definition py_str_method (v : json) : res string :=
  match v with
  | JStr s => Val s
  | _ => Exc AttributeError
  end.

(** [sep.join(xs)] on a list of loaded values: every item must be a [str]. *)
Fixpoint strs_of (xs : list json) : res (list string) :=
  match xs with
  | [] => Val []
  | JStr s :: rest =>
      match strs_of rest with
      | Val ss => Val (s :: ss)
      | Exc e => Exc e
      end
  | _ :: _ => Exc TypeError
  end.

Section Formatting.

(** [repr] of a Python string (quoting and escaping), a builtin. *)
Variable repr_str : string -> string.

Fixpoint py_repr (v : json) : string :=
  match v with
  | JNull => "None"
  | JBool true => "True"
  | JBool false => "False"
  | JNum n => pretty n
  | JStr s => repr_str s
  | JArr xs => "[" ++ str_join ", " (map py_repr xs) ++ "]"
  | JObj kvs =>
      "{" ++ str_join ", "
               (map (fun kv => repr_str (fst kv) ++ ": " ++ py_repr (snd kv)) kvs)
          ++ "}"
  end.

(** [str(v)], which is also how an f-string renders [v]. *)
Definition py_str (v : json) : string :=
  match v with
  | JStr s => s
  | _ => py_repr v
  end.

(** ** Cardinality deriver: [get_cardinality], lines 111-134 *)

Definition get_cardinality (schema parent_required : json) (prop_name : string)
  : res string :=
  is_required ← py_in prop_name parent_required;
  ty ← py_get schema "type" JNull;
  if is_str ty "array" then
    min_items ← py_get schema "minItems" (JNum 0);
    max_items ← py_get schema "maxItems" JNull;
    if (is_required : bool) then
      positive ← py_gt0 min_items;
      if (positive : bool) then
        if negb (is_none max_items)
        then Val (py_str min_items ++ ".." ++ py_str max_items)
        else Val (py_str min_items ++ "..*")
      else
        if negb (is_none max_items)
        then Val ("0.." ++ py_str max_items)
        else Val "0..*"
    else Val "0..1 (array)"
  else Val (if (is_required : bool) then "1..1" else "0..1").

(** ** Type-signature deriver: [get_type_string], lines 136-169 *)

Fixpoint get_type_string (schema : json) : res json :=
  has_type ← py_in "type" schema;
  if (has_type : bool) then
    schema_type ← py_getitem schema "type";
    match schema_type with
    | JArr names =>
        ss ← strs_of names; Val (JStr (str_join " | " ss))
    | _ =>
        if is_str schema_type "array" then
          (* items = schema.get('items', {});
             item_type = self.get_type_string(items) if items else 'any' *)
          item_type ←
            match schema with
            | JObj kvs =>
                default (Val (JStr "any"))
                  (dict_find
                     (fun items => if py_truthy items
                                   then get_type_string items
                                   else Val (JStr "any"))
                     "items" kvs)
            | _ => Exc AttributeError
            end;
          Val (JStr ("array<" ++ py_str item_type ++ ">"))
        else if is_str schema_type "object" then Val (JStr "object")
        else Val schema_type
    end
  else
    has_enum ← py_in "enum" schema;
    if (has_enum : bool) then
      enum_values ← py_getitem schema "enum";
      n ← py_len enum_values;
      if (n <=? 3)%nat then
        vs ← py_iter enum_values;
        Val (JStr ("enum(" ++ str_join ", " (map py_str vs) ++ ")"))
      else Val (JStr ("enum(" ++ pretty n ++ " values)"))
    else
      has_one ← py_in "oneOf" schema;
      if (has_one : bool) then Val (JStr "oneOf") else
      has_any ← py_in "anyOf" schema;
      if (has_any : bool) then Val (JStr "anyOf") else
      has_all ← py_in "allOf" schema;
      if (has_all : bool) then Val (JStr "allOf") else
      has_ref ← py_in "$ref" schema;
      if (has_ref : bool) then
        ref ← py_getitem schema "$ref";
        Val (JStr ("ref(" ++ py_str ref ++ ")"))
      else Val (JStr "unknown").

End Formatting.

(** ** The visualizer object and its effects *)

(** One row of the output table ([SchemaProperty]); [prop_path] and
    [prop_name] are its fields [path] and [name].  [data_type] and
    [description] are whatever value the document holds there. *)
Record SchemaProperty : Type := mkSchemaProperty {
  prop_path : string;
  prop_name : string;
  data_type : json;
  cardinality : string;
  description : json
}.

(** What the run does to the outside world. *)
Inductive event : Type :=
| Opened (path : string)     (* a file was opened and handed to a parser *)
| Printed (line : string).   (* a line was written to the console *)

Record visualizer : Type := mkVisualizer {
  resolved_refs : gset atom;
  schema_cache : gmap string json;
  properties : list SchemaProperty;
  trace : list event
}.

Definition set_resolved_refs (f : gset atom -> gset atom) (self : visualizer)
  : visualizer :=
  mkVisualizer (f (resolved_refs self)) (schema_cache self)
               (properties self) (trace self).

Definition set_schema_cache (f : gmap string json -> gmap string json)
  (self : visualizer) : visualizer :=
  mkVisualizer (resolved_refs self) (f (schema_cache self))
               (properties self) (trace self).

Definition set_properties (f : list SchemaProperty -> list SchemaProperty)
  (self : visualizer) : visualizer :=
  mkVisualizer (resolved_refs self) (schema_cache self)
               (f (properties self)) (trace self).

Definition log (e : event) (self : visualizer) : visualizer :=
  mkVisualizer (resolved_refs self) (schema_cache self)
               (properties self) (trace self ++ [e])%list.

(** Outcome of a method call: a value, an exception, or not enough fuel;
    the first two with the visualizer as the call leaves it. *)
Inductive run (A : Type) : Type :=
| Done (a : A) (self : visualizer)
| Raised (e : exn) (self : visualizer)
| OutOfFuel.
Arguments Done {A} a self.
Arguments Raised {A} e self.
Arguments OutOfFuel {A}.

Definition method (A : Type) : Type := visualizer -> run A.

Global Instance method_ret : MRet method := fun A a self => Done a self.
Global Instance method_bind : MBind method := fun A B k m self =>
  match m self with
  | Done a self' => k a self'
  | Raised e self' => Raised e self'
  | OutOfFuel => OutOfFuel
  end.

(** An effect-free expression inside a method. *)
Definition lift {A : Type} (r : res A) : method A := fun self =>
  match r with
  | Val a => Done a self
  | Exc e => Raised e self
  end.

Definition update (f : visualizer -> visualizer) : method unit :=
  fun self => Done tt (f self).

Definition get_properties : method (list SchemaProperty) :=
  fun self => Done (properties self) self.

(** [try: body finally: cleanup] *)
Definition try_finally {A : Type} (body : method A)
  (cleanup : visualizer -> visualizer) : method A := fun self =>
  match body self with
  | Done a self' => Done a (cleanup self')
  | Raised e self' => Raised e (cleanup self')
  | OutOfFuel => OutOfFuel
  end.

(** [for x in xs: body(x)] *)
Fixpoint for_each {A : Type} (xs : list A) (body : A -> method unit)
  : method unit :=
  match xs with
  | [] => mret tt
  | x :: rest => body x ;; for_each rest body
  end.

(** The visualizer a run leaves behind, if it returns or raises. *)
Definition final {A : Type} (r : run A) : option visualizer :=
  match r with
  | Done _ self => Some self
  | Raised _ self => Some self
  | OutOfFuel => None
  end.

(** ** The file system *)

(** What the file system answers for a path: resolving it
    ([path.resolve()]) raises, so that no file is reached under it (a
    name no file can bear, a loop of links); or it resolves, and opening
    it and parsing it by suffix finds no file, raises another exception,
    or gives a document. *)
Inductive file_content : Type :=
| Unresolvable (e : exn)
| NoSuchFile
| Malformed (err : string)   (* any other exception, with its message *)
| Parses (doc : json).

(** Path arithmetic is [pathlib]'s; paths are kept as the strings [str]
    gives for them. *)
Record FileSystem : Type := mkFileSystem {
  (* [Path(file_path)], joined to [base_path] unless absolute *)
  fs_locate : string -> string;
  (* [str(path.resolve())], for a path that resolves *)
  fs_resolve : string -> string;
  (* [str(current_path.parent / ref)] *)
  fs_sibling : string -> string -> string;
  (* [path.resolve()], then [open(path)] followed by [yaml.safe_load] or
     [json.load] *)
  fs_read : string -> file_content
}.

(** ** Placeholder fragments *)

Definition circular_placeholder (ref : string) : json :=
  JObj [("type", JStr "object");
        ("description", JStr ("Circular reference to " ++ ref))].

Definition unknown_placeholder (ref : string) : json :=
  JObj [("type", JStr "unknown");
        ("description", JStr ("Unresolved reference: " ++ ref))].

Definition external_placeholder (ref : string) : json :=
  JObj [("type", JStr "external");
        ("description", JStr ("External reference: " ++ ref))].

(** The loop of lines 78-83 and 96-101: descend through successive keys;
    [None] is the early [return] of the placeholder. *)
Fixpoint descend (parts : list string) (result : json) : option json :=
  match parts with
  | [] => Some result
  | part :: rest =>
      match result with
      | JObj kvs =>
          match dict_get part kvs with
          | Some v => descend rest v
          | None => None
          end
      | _ => None
      end
  end.

Definition walk (ref : string) (parts : list string) (schema : json) : json :=
  match descend parts schema with
  | Some result => result
  | None => unknown_placeholder ref
  end.

Section Visualizer.

Variable repr_str : string -> string.
Variable fs : FileSystem.

(** ** Document loader: [load_schema], lines 38-64 *)

(** [str(path.resolve())], line 45: it stands before the [try], so what
    it raises leaves [load_schema]. *)
Definition resolve (path : string) : res string :=
  match fs_read fs path with
  | Unresolvable e => Exc e
  | _ => Val (fs_resolve fs path)
  end.

Definition load_schema (file_path : string) : method json :=
  let path := fs_locate fs file_path in
  cache_key ← lift (resolve path);
  (fun self =>
     match schema_cache self !! cache_key with
     | Some schema => Done schema self
     | None =>
         match fs_read fs path with
         | Parses schema =>
             Done schema
               (set_schema_cache (insert cache_key schema)
                  (log (Opened path) self))
         | NoSuchFile =>
             Done (JObj [])
               (log (Printed ("Warning: Could not find file: " ++ path)) self)
         | Malformed err =>
             Done (JObj [])
               (log (Printed ("Warning: Error loading " ++ path ++ ": " ++ err))
                  (log (Opened path) self))
         | Unresolvable e => Raised e self   (* not reached: [resolve] raised *)
         end
     end) : method json.

(** ** Reference resolver: [resolve_reference], lines 66-109 *)

(** The [try] block, lines 74-104.  Its first step, [ref.startswith],
    raises unless the token is a string. *)
Definition resolve_body (token : json) (current_schema : json)
  (current_path : string) : method json :=
  ref ← lift (py_str_method token);
  if String.prefix "#/" ref then
    mret (walk ref (str_split "/"%char (str_drop 2 ref)) current_schema)
  else if String.prefix "http" ref then
    mret (external_placeholder ref)
  else
    match str_split_once "#/" ref with
    | Some (file_part, fragment) =>
        schema ← load_schema (fs_sibling fs current_path file_part);
        mret (walk ref (str_split "/"%char fragment) schema)
    | None => load_schema (fs_sibling fs current_path ref)
    end.

(** The token is whatever value sits under ["$ref"]: the membership
    test of line 68 hashes it, line 71 adds it to the set, and the
    [finally] of line 107 discards it on the way out of the [try],
    whether its body returns or raises. *)
Definition resolve_reference (ref : json) (current_schema : json)
  (current_path : string) : method json :=
  key ← lift (py_hash ref);
  (fun self =>
     if bool_decide (key ∈ resolved_refs self) then
       Done (circular_placeholder (py_str repr_str ref)) self
     else
       try_finally (resolve_body ref current_schema current_path)
         (set_resolved_refs (fun refs => refs ∖ {[key]}))
         (set_resolved_refs (fun refs => refs ∪ {[key]}) self)) : method json.

(** ** Recursive walker: [parse_schema], lines 171-235 *)

(** [s.get('type') == 'object' or 'properties' in s] *)
Definition object_like (s : json) : res bool :=
  ty ← py_get s "type" JNull;
  if is_str ty "object" then Val true else py_in "properties" s.

(** [s.get('type') == 'array' and 'items' in s] *)
Definition array_with_items (s : json) : res bool :=
  ty ← py_get s "type" JNull;
  if is_str ty "array" then py_in "items" s else Val false.

(** Lines 190-195; the last case cannot arise for the three keys. *)
Definition sub_path (combine_key path : string) : string :=
  if String.eqb combine_key "allOf" then path
  else if String.eqb combine_key "anyOf" then path ++ "[or]/"
  else if String.eqb combine_key "oneOf" then path ++ "[xor]/"
  else path.

Definition record (path prop_name : string) (prop_schema required : json)
  : method unit :=
  ty ← lift (get_type_string repr_str prop_schema);
  card ← lift (get_cardinality repr_str prop_schema required prop_name);
  descr ← lift (py_get prop_schema "description" (JStr ""));
  update (set_properties (fun ps =>
    (ps ++ [mkSchemaProperty (if String.eqb path "" then "/" else path)
                             prop_name ty card descr])%list)).

(** The body of [parse_schema] with its recursive calls left open:
    [visit schema path parent_required] stands for
    [self.parse_schema(schema, path, parent_required, current_file)]. *)
Section Step.

Variable current_file : string.
Variable visit : json → string → json → method unit.

(** Lines 182-183, 224-225 and 227-228: resolve the token under
    ["$ref"] of [holder] against [holder] itself, then walk the
    fragment it resolves to. *)
Definition follow_ref (holder : json) (path : string) (required : json)
  : method unit :=
  ref ← lift (py_getitem holder "$ref");
  resolved ← resolve_reference ref holder current_file;
  visit resolved path required.

(** Lines 205-228: one turn of the loop over [properties.items()]. *)
Definition visit_property (path : string) (required : json)
  (item : string * json) : method unit :=
  let prop_name := fst item in
  let prop_schema := snd item in
  let prop_path := path ++ "/" ++ prop_name in
  record path prop_name prop_schema required;;
  nested ← lift (object_like prop_schema);
  if (nested : bool) then visit prop_schema prop_path (JArr [])
  else
    is_array ← lift (array_with_items prop_schema);
    if (is_array : bool) then
      items_schema ← lift (py_getitem prop_schema "items");
      nested_items ← lift (object_like items_schema);
      if (nested_items : bool) then
        visit items_schema (prop_path ++ "[]") (JArr [])
      else
        items_ref ← lift (py_in "$ref" items_schema);
        if (items_ref : bool)
        then follow_ref items_schema (prop_path ++ "[]") (JArr [])
        else mret tt
    else
      prop_ref ← lift (py_in "$ref" prop_schema);
      if (prop_ref : bool)
      then follow_ref prop_schema prop_path (JArr [])
      else mret tt.

(** Lines 199-235: a fragment with neither ["$ref"] nor a combinator. *)
Definition visit_plain (schema : json) (path : string) : method unit :=
  (* Handle object properties *)
  is_object ← lift (object_like schema);
  if (is_object : bool) then
    props ← lift (py_get schema "properties" (JObj []));
    required ← lift (py_get schema "required" (JArr []));
    items ← lift (py_items props);
    for_each items (visit_property path required)
  else
  (* Handle array items *)
    is_array ← lift (array_with_items schema);
    if (is_array : bool) then
      items_schema ← lift (py_getitem schema "items");
      nested_items ← lift (object_like items_schema);
      if (nested_items : bool) then
        let array_path :=
          if negb (String.eqb path "") then path ++ "[]" else "[]" in
        visit items_schema array_path (JArr [])
      else mret tt
    else mret tt.

(** Lines 186-197: the loop over the combinator keys, which returns
    after the first key found. *)
Fixpoint visit_combinators (keys : list string) (schema : json)
  (path : string) (parent_required : json) : method unit :=
  match keys with
  | combine_key :: keys' =>
      present ← lift (py_in combine_key schema);
      if (present : bool) then
        branches ← lift (py_getitem schema combine_key);
        subs ← lift (py_iter branches);
        for_each subs (fun sub_schema =>
          visit sub_schema (sub_path combine_key path) parent_required)
      else visit_combinators keys' schema path parent_required
  | [] => visit_plain schema path
  end.

(** Lines 180-197 *)
Definition parse_step (schema : json) (path : string)
  (parent_required : json) : method unit :=
  (* Handle $ref *)
  has_ref ← lift (py_in "$ref" schema);
  if (has_ref : bool) then follow_ref schema path parent_required
  else
  (* Handle allOf, anyOf, oneOf *)
    visit_combinators ["allOf"; "anyOf"; "oneOf"] schema path
      parent_required.

End Step.

Fixpoint parse_schema (fuel : nat) (schema : json) (path : string)
  (parent_required : json) (current_file : string) {struct fuel}
  : method unit :=
  match fuel with
  | O => fun _ => OutOfFuel
  | S fuel =>
      parse_step current_file
        (fun sub_schema path' required =>
           parse_schema fuel sub_schema path' required current_file)
        schema path parent_required
  end.

(** ** [visualize_schema], lines 237-246: the run, up to the table *)

Definition reset (self : visualizer) : visualizer :=
  mkVisualizer ∅ ∅ [] (trace self).

Definition visualize_schema (fuel : nat) (schema_file : string)
  : method (list SchemaProperty) :=
  update reset;;
  schema ← load_schema schema_file;
  parse_schema fuel schema "" (JArr []) schema_file;;
  get_properties.

End Visualizer.

(** A fresh [JSONSchemaVisualizer], as [__init__] leaves it. *)
Definition new_visualizer : visualizer := mkVisualizer ∅ ∅ [] [].

(** ** Notions the specification uses *)

(** [designates doc keys frag]: following [keys] one after the other from
    [doc], each a key of the mapping reached so far, ends at [frag]. *)
Inductive designates : json → list string → json → Prop :=
| designates_here (doc : json) : designates doc [] doc
| designates_step (kvs : list (string * json)) (key : string)
    (keys : list string) (v frag : json) :
    dict_get key kvs = Some v →
    designates v keys frag →
    designates (JObj kvs) (key :: keys) frag.

(** The array rule of the type-signature deriver as the specification
    words it: whenever [items] is present, the signature wraps the
    signature derived for the items. *)
Definition array_rule_as_claimed : Prop :=
  ∀ (repr_str : string → string) (kvs : list (string * json))
    (items : json) (t : string),
    dict_get "type" kvs = Some (JStr "array") →
    dict_get "items" kvs = Some items →
    get_type_string repr_str items = Val (JStr t) →
    get_type_string repr_str (JObj kvs) = Val (JStr ("array<" ++ t ++ ">")).

(** The combinator the walker takes: the first key present among
    [allOf], [anyOf], [oneOf], in that order, with its branches. *)
Definition first_combinator (kvs : list (string * json)) : option (string * json) :=
  match dict_get "allOf" kvs with
  | Some branches => Some ("allOf", branches)
  | None =>
      match dict_get "anyOf" kvs with
      | Some branches => Some ("anyOf", branches)
      | None =>
          match dict_get "oneOf" kvs with
          | Some branches => Some ("oneOf", branches)
          | None => None
          end
      end
  end.

(** A document that refers to its own file: [a.json] holding
    [{"$ref": "a.json"}], in a directory where paths are used as given. *)
Definition ref_cycle : json := JObj [("$ref", JStr "a.json")].

Definition fs_cycle : FileSystem :=
  mkFileSystem (fun p => p) (fun p => p) (fun _ ref => ref)
    (fun p => if String.eqb p "a.json" then Parses ref_cycle else NoSuchFile).

(** ** Files parsed in a trace *)

(** The event opens a file that parses, at a path that resolves to
    [key]. *)
Definition parsed_open (fs : FileSystem) (key : string) (ev : event) : bool :=
  match ev with
  | Opened path =>
      match fs_read fs path with
      | Parses _ => String.eqb (fs_resolve fs path) key
      | _ => false
      end
  | Printed _ => false
  end.

(** How many times the events parse the file behind [key]. *)
Definition parses_of (fs : FileSystem) (key : string) (events : list event)
  : nat :=
  List.length (List.filter (parsed_open fs key) events).

(** ** Well-formed schemas and what the walker reaches in them *)

Definition is_string (v : json) : bool :=
  match v with JStr _ => true | _ => false end.

Definition is_list (v : json) : bool :=
  match v with JArr _ => true | _ => false end.

(** One entry of a schema mapping has the shape JSON Schema gives its
    keyword: no ["$ref"]; combinators, if allowed at all, hold a list of
    schemas; ["properties"] maps names to schemas; ["items"] is a schema;
    ["required"] and ["enum"] are lists; ["type"] is a name or a list of
    names; ["minItems"] is a number. *)
Definition entry_ok (combinators : bool) (ok : json → bool)
  (entry : string * json) : bool :=
  let key := fst entry in
  let v := snd entry in
  if String.eqb key "$ref" then false
  else if String.eqb key "allOf" || String.eqb key "anyOf" || String.eqb key "oneOf"
  then combinators && match v with JArr branches => forallb ok branches | _ => false end
  else if String.eqb key "properties"
  then match v with JObj props => forallb (fun p => ok (snd p)) props | _ => false end
  else if String.eqb key "items" then ok v
  else if String.eqb key "required" then is_list v
  else if String.eqb key "type"
  then match v with JStr _ => true | JArr names => forallb is_string names | _ => false end
  else if String.eqb key "enum" then is_list v
  else if String.eqb key "minItems" then match v with JNum _ => true | _ => false end
  else true.

(** A schema without references: a mapping whose entries are well formed,
    with or without combinators. *)
Fixpoint schema_ok (combinators : bool) (v : json) : bool :=
  match v with
  | JObj kvs => forallb (entry_ok combinators (schema_ok combinators)) kvs
  | _ => false
  end.

(** An object-like fragment: [type: object] or a [properties] key. *)
Definition is_object_like (s : json) : bool :=
  match s with
  | JObj kvs =>
      match dict_get "type" kvs with
      | Some ty => is_str ty "object"
      | None => false
      end
      || dict_has "properties" kvs
  | _ => false
  end.

(** The items of an array fragment that declares them. *)
Definition array_items (s : json) : option json :=
  match s with
  | JObj kvs =>
      match dict_get "type" kvs with
      | Some ty => if is_str ty "array" then dict_get "items" kvs else None
      | None => None
      end
  | _ => None
  end.

(** The declared properties of a mapping, in key order. *)
Definition declared_in (s : json) : list (string * json) :=
  match s with
  | JObj kvs =>
      match dict_get "properties" kvs with
      | Some (JObj props) => props
      | _ => []
      end
  | _ => []
  end.

(** The root level is shown as ["/"]. *)
Definition shown (path : string) : string :=
  if String.eqb path "" then "/" else path.

(** Where a row sits: the path of its containing object and its name. *)
Definition row_key (r : SchemaProperty) : string * string :=
  (prop_path r, prop_name r).

Section Reach.

(** The rows of a nested fragment at a path. *)
Variable deeper : json → string → list (string * string).

(** A declared property gives its own row, then the rows of the level
    below it: its own properties when it is object-like, else those of
    its items when it is an array with object-like items. *)
Definition property_rows (path : string) (item : string * json)
  : list (string * string) :=
  let prop_path := path ++ "/" ++ fst item in
  (shown path, fst item) ::
    (if is_object_like (snd item) then deeper (snd item) prop_path
     else match array_items (snd item) with
          | Some items =>
              if is_object_like items then deeper items (prop_path ++ "[]")
              else []
          | None => []
          end).

(** The rows of a fragment that has no combinator: those of its declared
    properties in key order when it is object-like, else those of its
    items when it is an array with object-like items. *)
Definition plain_rows (schema : json) (path : string)
  : list (string * string) :=
  if is_object_like schema
  then flat_map (property_rows path) (declared_in schema)
  else match array_items schema with
       | Some items =>
           if is_object_like items then deeper items (path ++ "[]") else []
       | None => []
       end.

End Reach.

(** Rows of a schema without combinators, to a nesting depth. *)
Fixpoint declared (depth : nat) (schema : json) (path : string)
  : list (string * string) :=
  match depth with
  | O => []
  | S depth => plain_rows (declared depth) schema path
  end.

Definition declared_properties (schema : json) (path : string)
  : list (string * string) :=
  declared (json_size schema) schema path.

(** Rows of a schema that may hold combinators: every branch of the first
    combinator present, at the path that combinator gives its branches. *)
Fixpoint reach (depth : nat) (schema : json) (path : string)
  : list (string * string) :=
  match depth with
  | O => []
  | S depth =>
      match schema with
      | JObj kvs =>
          match first_combinator kvs with
          | Some (key, JArr branches) =>
              flat_map (fun b => reach depth b (sub_path key path)) branches
          | Some _ => []
          | None => plain_rows (reach depth) schema path
          end
      | _ => []
      end
  end.

(** [m] returns, having appended rows with the keys [rows] and changed
    nothing else. *)
Definition emits (m : method unit) (rows : list (string * string)) : Prop :=
  ∀ self : visualizer,
    ∃ new : list SchemaProperty,
      m self = Done tt (set_properties (fun ps => ps ++ new)%list self)
      ∧ map row_key new = rows.

(** Every declared property reachable through [properties] and [items],
    to a nesting depth, as the specification words the reach of the walk. *)
Fixpoint all_declared (depth : nat) (schema : json) : list string :=
  match depth with
  | O => []
  | S depth =>
      match schema with
      | JObj kvs =>
          flat_map (fun p => fst p :: all_declared depth (snd p))
                   (declared_in schema)
          ++ match dict_get "items" kvs with
             | Some items => all_declared depth items
             | None => []
             end
      | _ => []
      end
  end.

(** The walk as the specification states it for schemas without
    references and combinators. *)
Definition one_row_per_declared_property : Prop :=
  ∀ (repr_str : string → string) (fs : FileSystem) (schema : json)
    (current_file : string) (self self' : visualizer),
    schema_ok false schema = true →
    parse_schema repr_str fs (json_size schema) schema "" (JArr [])
      current_file self = Done tt self' →
    map prop_name (properties self')
    = (map prop_name (properties self)
       ++ all_declared (json_size schema) schema)%list.

(** The walk as the specification states it for every loaded document. *)
Definition walker_total : Prop :=
  ∀ (repr_str : string → string) (fs : FileSystem) (document : json)
    (current_file : string),
    ∃ (fuel : nat) (self' : visualizer),
      parse_schema repr_str fs fuel document "" (JArr []) current_file
        new_visualizer = Done tt self'.

(** An array of arrays of objects under a property. *)
Definition nested_arrays : json :=
  JObj [("type", JStr "object");
        ("properties",
         JObj [("m", JObj [("type", JStr "array");
                           ("items",
                            JObj [("type", JStr "array");
                                  ("items",
                                   JObj [("type", JStr "object");
                                         ("properties",
                                          JObj [("x", JObj [("type", JStr "string")])])])])])])].

(** A property whose [items] is a list of schemas (tuple validation). *)
Definition tuple_items : json :=
  JObj [("type", JStr "object");
        ("properties",
         JObj [("x", JObj [("type", JStr "array");
                           ("items", JArr [JObj [("type", JStr "string")]])])])].

(** ** Concrete documents and file systems *)

(** [repr] of a string that holds no quote, backslash or control
    character. *)
Definition repr_plain (s : string) : string := "'" ++ s ++ "'".

(** A directory without files, where paths are used as they are given. *)
Definition fs_empty : FileSystem :=
  mkFileSystem (fun p => p) (fun p => p) (fun _ ref => ref) (fun _ => NoSuchFile).

(** The object with a required [id] and an optional array [tags]. *)
Definition id_and_tags : json :=
  JObj [("type", JStr "object");
        ("required", JArr [JStr "id"]);
        ("properties",
         JObj [("id", JObj [("type", JStr "string")]);
               ("tags", JObj [("type", JStr "array");
                              ("items", JObj [("type", JStr "string")]);
                              ("minItems", JNum 1)])])].

(** A choice between two scalar types. *)
Definition one_of_scalars : json :=
  JObj [("oneOf", JArr [JObj [("type", JStr "string")];
                        JObj [("type", JStr "integer")]])].

(** A root that refers to one of its own definitions. *)
Definition with_definitions : json :=
  JObj [("$ref", JStr "#/definitions/Name");
        ("definitions", JObj [("Name", JObj [("type", JStr "string")])])].

(** A directory whose only file, [defs.json], holds [with_definitions]. *)
Definition fs_defs : FileSystem :=
  mkFileSystem (fun p => p) (fun p => p) (fun _ ref => ref)
    (fun p => if String.eqb p "defs.json" then Parses with_definitions
              else NoSuchFile).

(** A fragment with [anyOf] written before [allOf]. *)
Definition two_combinators : json :=
  JObj [("anyOf", JArr [JObj [("properties",
                               JObj [("a", JObj [("type", JStr "string")])])]]);
        ("allOf", JArr [JObj [("properties",
                               JObj [("b", JObj [("type", JStr "integer")])])]])].

(** An object whose property refers to a definition of the root. *)
Definition nested_reference : json :=
  JObj [("type", JStr "object");
        ("properties", JObj [("name", JObj [("$ref", JStr "#/definitions/Name")])]);
        ("definitions",
         JObj [("Name", JObj [("type", JStr "object");
                              ("properties",
                               JObj [("first", JObj [("type", JStr "string")])])])])].

(** A directory whose only entry, [loop.json], is a link to itself: its
    path cannot be resolved. *)
Definition fs_loop : FileSystem :=
  mkFileSystem (fun p => p) (fun p => p) (fun _ ref => ref)
    (fun p => if String.eqb p "loop.json" then Unresolvable RuntimeError
              else NoSuchFile).

(** A root whose two properties refer to the same definition kept in
    [defs.json]. *)
Definition two_file_references : json :=
  JObj [("type", JStr "object");
        ("properties",
         JObj [("first", JObj [("$ref", JStr "defs.json#/definitions/Name")]);
               ("second", JObj [("$ref", JStr "defs.json#/definitions/Name")])])].

(** A directory with [root.json], which holds [two_file_references], and
    [defs.json], which holds [with_definitions]. *)
Definition fs_two : FileSystem :=
  mkFileSystem (fun p => p) (fun p => p) (fun _ ref => ref)
    (fun p => if String.eqb p "root.json" then Parses two_file_references
              else if String.eqb p "defs.json" then Parses with_definitions
              else NoSuchFile).
(** ** Relations between the visualizer before and after a call *)

(** Every cached document is the parse of a file, under the key that file
    resolves to. *)
Definition cache_sound (fs : FileSystem) (self : visualizer) : Prop :=
  ∀ (key : string) (doc : json),
    schema_cache self !! key = Some doc →
    ∃ path : string, fs_resolve fs path = key ∧ fs_read fs path = Parses doc.

(** From [self] to [self']: the set of references being resolved is the
    same, the cache has kept its entries, the trace and the rows have only
    been extended, the new rows all sit at paths that extend [path], the
    cache is sound if it was, and the new events parse the file behind a
    key at most once, and only when the key was not cached before and is
    cached now. *)
Definition extends_from (fs : FileSystem) (path : string)
  (self self' : visualizer) : Prop :=
  resolved_refs self' = resolved_refs self
  ∧ schema_cache self ⊆ schema_cache self'
  ∧ (cache_sound fs self → cache_sound fs self')
  ∧ (∃ events : list event,
       trace self' = (trace self ++ events)%list
       ∧ ∀ key : string,
           (parses_of fs key events ≤ 1)%nat
           ∧ (is_Some (schema_cache self !! key) → parses_of fs key events = 0%nat)
           ∧ (schema_cache self' !! key = None → parses_of fs key events = 0%nat))
  ∧ (∃ new : list SchemaProperty,
       properties self' = (properties self ++ new)%list
       ∧ Forall (fun r => String.prefix path (prop_path r) = true) new).

(** A method keeps a relation when the visualizer it leaves, on return or
    on an exception, is related to the one it was called on. *)
Definition keeps {A : Type} (R : visualizer → visualizer → Prop)
  (m : method A) : Prop :=
  ∀ self self' : visualizer, final (m self) = Some self' → R self self'.

(** ** Documents whose references stay out of the file system *)

(** Every string token under a ["$ref"] key, at any depth, is internal
    (["#/..."]) or remote (["http..."]). *)
Fixpoint local_refs (v : json) : bool :=
  match v with
  | JObj kvs =>
      match dict_get "$ref" kvs with
      | Some (JStr ref) => String.prefix "#/" ref || String.prefix "http" ref
      | _ => true
      end
      && forallb (fun kv => local_refs (snd kv)) kvs
  | JArr xs => forallb local_refs xs
  | _ => true
  end.

(** One of the three stand-in fragments of the resolver. *)
Definition is_placeholder (v : json) : Prop :=
  ∃ ref : string,
    v = circular_placeholder ref ∨ v = unknown_placeholder ref
    ∨ v = external_placeholder ref.

(** A method that never runs out of fuel. *)
Definition returns {A : Type} (m : method A) : Prop :=
  ∀ self : visualizer, m self ≠ OutOfFuel.

(** ** Further concrete documents *)

(** A root that refers to a definition kept in [defs.json]. *)
Definition refers_to_defs : json :=
  JObj [("$ref", JStr "defs.json#/definitions/Name")].

(** ** Visualizers that differ in their trace only *)

Definition same_but_trace (self1 self2 : visualizer) : Prop :=
  resolved_refs self1 = resolved_refs self2
  ∧ schema_cache self1 = schema_cache self2
  ∧ properties self1 = properties self2.

(** Two outcomes of the same kind, with the same value or exception, that
    leave visualizers differing in their trace only. *)
Definition alike {A : Type} (r1 r2 : run A) : Prop :=
  match r1, r2 with
  | Done a self1, Done b self2 => a = b ∧ same_but_trace self1 self2
  | Raised e self1, Raised e' self2 => e = e' ∧ same_but_trace self1 self2
  | OutOfFuel, OutOfFuel => True
  | _, _ => False
  end.

(** A method that does not look at the trace. *)
Definition blind {A : Type} (m : method A) : Prop :=
  ∀ self1 self2 : visualizer,
    same_but_trace self1 self2 → alike (m self1) (m self2).

(** A directory whose only file, [root.json], holds [id_and_tags]. *)
Definition fs_root : FileSystem :=
  mkFileSystem (fun p => p) (fun p => p) (fun _ ref => ref)
    (fun p => if String.eqb p "root.json" then Parses id_and_tags
              else NoSuchFile).

(** A fragment that declares a property beside a remote reference. *)
Definition remote_with_properties : json :=
  JObj [("$ref", JStr "https://example.org/person.json");
        ("properties", JObj [("name", JObj [("type", JStr "string")])])].

(** An [allOf] given a mapping instead of a list. *)
Definition all_of_mapping : json :=
  JObj [("allOf", JObj [("name", JObj [("type", JStr "string")])])].

(** * Properties *)

(** ** Strings *)

Lemma prefix_cons (a b : ascii) (s t : string) :
  String.prefix (String a s) (String b t)
  = if Ascii.eqb a b then String.prefix s t else false.
Proof.
  cbn [String.prefix]. destruct (ascii_dec a b) as [->|Hne].
  - by rewrite Ascii.eqb_refl.
  - apply Ascii.eqb_neq in Hne. by rewrite Hne.
Qed.

Lemma prefix_app (s t : string) : String.prefix s (s ++ t) = true.
Proof.
  induction s as [|a s IH]; [by destruct t|].
  change (String a s ++ t) with (String a (s ++ t)).
  by rewrite prefix_cons, Ascii.eqb_refl.
Qed.

Lemma str_split_nonempty (c : ascii) (s : string) : str_split c s ≠ [].
Proof.
  destruct s as [|a s]; simpl; [done|].
  destruct (Ascii.eqb a c); [done|]. by destruct (str_split c s).
Qed.

Lemma str_contains_cons (c a : ascii) (k : string) :
  str_contains (String c EmptyString) (String a k) = false →
  Ascii.eqb a c = false ∧ str_contains (String c EmptyString) k = false.
Proof.
  cbn [str_contains]. rewrite prefix_cons, orb_false_iff.
  intros [Ha Hk]. split; [|done].
  rewrite Ascii.eqb_sym. destruct (Ascii.eqb c a); [|done]. by destruct k.
Qed.

Lemma str_split_plain (c : ascii) (k : string) :
  str_contains (String c EmptyString) k = false → str_split c k = [k].
Proof.
  induction k as [|a k IH]; [done|].
  intros [Ha Hk]%str_contains_cons.
  cbn [str_split]. by rewrite Ha, (IH Hk).
Qed.

Lemma str_split_app (c : ascii) (k s : string) :
  str_contains (String c EmptyString) k = false →
  str_split c (k ++ String c s) = k :: str_split c s.
Proof.
  induction k as [|a k IH].
  - intros _. change ("" ++ String c s) with (String c s).
    cbn [str_split]. by rewrite Ascii.eqb_refl.
  - intros [Ha Hk]%str_contains_cons.
    change (String a k ++ String c s) with (String a (k ++ String c s)).
    cbn [str_split]. by rewrite Ha, (IH Hk).
Qed.

(** Joining undoes splitting. *)
Lemma str_join_split (c : ascii) (s : string) :
  str_join (String c EmptyString) (str_split c s) = s.
Proof.
  induction s as [|a s IH]; [done|].
  cbn [str_split]. destruct (Ascii.eqb_spec a c) as [->|Hne].
  - pose proof (str_split_nonempty c s) as Hne.
    destruct (str_split c s) as [|h t]; [done|].
    change (str_join (String c "") ("" :: h :: t))
      with (String c (str_join (String c "") (h :: t))).
    by rewrite IH.
  - destruct (str_split c s) as [|h t] eqn:Hs;
      [by destruct (str_split_nonempty c s)|].
    rewrite <- IH. by destruct t.
Qed.

(** Splitting undoes joining: the keys of ["a/b/c"] are [a], [b], [c]. *)
Lemma str_split_join (c : ascii) (keys : list string) :
  keys ≠ [] →
  Forall (fun k => str_contains (String c EmptyString) k = false) keys →
  str_split c (str_join (String c EmptyString) keys) = keys.
Proof.
  intros Hne Hall. induction Hall as [|k keys Hk Hall IH]; [done|].
  destruct keys as [|k' keys].
  - by apply str_split_plain.
  - change (str_join (String c EmptyString) (k :: k' :: keys))
      with (k ++ String c (str_join (String c EmptyString) (k' :: keys))).
    rewrite str_split_app by done. by rewrite IH.
Qed.

Lemma str_split_once_eq (sep s : string) :
  str_split_once sep s =
  if String.prefix sep s then Some (EmptyString, str_drop (String.length sep) s)
  else match s with
       | EmptyString => None
       | String a s' =>
           match str_split_once sep s' with
           | Some (before, after) => Some (String a before, after)
           | None => None
           end
       end.
Proof. by destruct s. Qed.

(** The first ["#/"] of [file_part ++ "#/" ++ fragment] is the one written
    out, when [file_part] holds none. *)
Lemma str_split_once_app (file_part fragment : string) :
  str_contains "#/" file_part = false →
  str_split_once "#/" (file_part ++ "#/" ++ fragment) = Some (file_part, fragment).
Proof.
  induction file_part as [|a fp IH]; intros Hno.
  - change ("" ++ "#/" ++ fragment) with ("#/" ++ fragment).
    by rewrite str_split_once_eq, prefix_app.
  - cbn [str_contains] in Hno. apply orb_false_iff in Hno as [Hpre Hrest].
    change (String a fp ++ "#/" ++ fragment)
      with (String a (fp ++ "#/" ++ fragment)).
    rewrite str_split_once_eq.
    assert (Hpre' : String.prefix "#/" (String a (fp ++ "#/" ++ fragment)) = false).
    { rewrite prefix_cons in Hpre |- *.
      destruct (Ascii.eqb "#" a); [|done].
      destruct fp as [|b fp].
      - change ("" ++ "#/" ++ fragment) with (String "#" (String "/" fragment)).
        by rewrite prefix_cons.
      - change (String b fp ++ "#/" ++ fragment)
          with (String b (fp ++ "#/" ++ fragment)).
        rewrite prefix_cons in Hpre |- *.
        destruct (Ascii.eqb "/" b); [|done]. by destruct fp. }
    by rewrite Hpre', (IH Hrest).
Qed.

Lemma str_split_once_none (sep s : string) :
  str_contains sep s = false → str_split_once sep s = None.
Proof.
  induction s as [|a s IH]; rewrite str_split_once_eq; cbn [str_contains];
    intros [Hpre Hrest]%orb_false_iff; rewrite Hpre; [done|].
  by rewrite IH.
Qed.

Lemma str_contains_prefix (sep s : string) :
  str_contains sep s = false → String.prefix sep s = false.
Proof. destruct s; cbn [str_contains]; by intros [? _]%orb_false_iff. Qed.

(** ** Loaded values *)

Lemma existsb_is_str (k : string) (xs : list json) :
  existsb (fun x => is_str x k) xs = true ↔ JStr k ∈ xs.
Proof.
  induction xs as [|x xs IH]; simpl.
  - split; [discriminate | intros H; inversion H].
  - rewrite orb_true_iff, IH, elem_of_cons. split.
    + intros [H|H]; [left | right; done].
      destruct x; simpl in H; try discriminate.
      apply String.eqb_eq in H. by subst.
    + intros [H|H]; [left | right; done].
      subst x. simpl. apply String.eqb_refl.
Qed.

Lemma dict_find_get {B : Type} (f : json → B) (k : string)
    (kvs : list (string * json)) :
  dict_find f k kvs = f <$> dict_get k kvs.
Proof.
  induction kvs as [|[k' v] kvs IH]; simpl; [done|].
  by destruct (String.eqb k' k).
Qed.

Lemma strs_of_fmap (names : list string) : strs_of (JStr <$> names) = Val names.
Proof.
  induction names as [|s names IH]; [done|].
  rewrite fmap_cons. cbn [strs_of]. by rewrite IH.
Qed.

Lemma descend_designates (keys : list string) (doc frag : json) :
  descend keys doc = Some frag ↔ designates doc keys frag.
Proof.
  revert doc. induction keys as [|key keys IH]; intros doc; simpl.
  - split; [intros [= ->]; constructor | by inversion 1].
  - split.
    + destruct doc; try discriminate.
      destruct (dict_get key kvs) as [v|] eqn:E; [|discriminate].
      intros H. econstructor; [done|]. by apply IH.
    + inversion 1 as [|? ? ? v ? Hget Hrest]; subst.
      rewrite Hget. by apply IH.
Qed.

(** Adding a token that was not in the guard and discarding it again
    gives the guard back. *)
Lemma add_discard (ref : atom) (refs : gset atom) :
  ref ∉ refs → (refs ∪ {[ref]}) ∖ {[ref]} = refs.
Proof.
  intros Hfresh. apply set_eq. intros x.
  rewrite elem_of_difference, elem_of_union, elem_of_singleton.
  split.
  - by intros [[?|?] ?].
  - intros Hx. split; [by left|]. by intros ->.
Qed.


Lemma set_resolved_refs_back (ref : atom) (self : visualizer) :
  ref ∉ resolved_refs self →
  set_resolved_refs (fun refs => refs ∖ {[ref]})
    (set_resolved_refs (fun _ => resolved_refs self ∪ {[ref]}) self) = self.
Proof.
  destruct self as [refs cache props tr]. intros Hfresh.
  unfold set_resolved_refs. simpl in *. f_equal. by apply add_discard.
Qed.

(** ** The derivers *)

Section Derivers.

Variable repr_str : string → string.

(** C3.  The cardinality of a property with schema mapping [kvs], in an
    object whose required list is [required]: a property that is not an
    array gives "1..1" when required and "0..1" otherwise; an array
    property that is not required gives "0..1 (array)" whatever its bounds;
    a required array property gives "min..max", or "min..*" without
    [maxItems], from a positive [minItems], and "0..max" or "0..*" when
    [minItems] is absent or 0. *)
Theorem get_cardinality_cases (kvs : list (string * json)) (required : list json)
    (prop_name : string) :
  let card := get_cardinality repr_str (JObj kvs) (JArr required) prop_name in
  (dict_get "type" kvs ≠ Some (JStr "array") →
     (JStr prop_name ∈ required → card = Val "1..1") ∧
     (JStr prop_name ∉ required → card = Val "0..1")) ∧
  (dict_get "type" kvs = Some (JStr "array") →
     (JStr prop_name ∉ required → card = Val "0..1 (array)") ∧
     (JStr prop_name ∈ required →
        ∀ upper : string,
          (dict_get "maxItems" kvs = None ∧ upper = "*") ∨
          (∃ k : Z, dict_get "maxItems" kvs = Some (JNum k) ∧ upper = pretty k) →
          (∀ m : Z, dict_get "minItems" kvs = Some (JNum m) → (0 < m)%Z →
                    card = Val (pretty m ++ ".." ++ upper)) ∧
          (dict_get "minItems" kvs = None ∨ dict_get "minItems" kvs = Some (JNum 0) →
             card = Val ("0.." ++ upper)))).
Proof.
  intros card. subst card. unfold get_cardinality. simpl.
  destruct (existsb (fun x => is_str x prop_name) required) eqn:Hreq.
  all: pose proof (existsb_is_str prop_name required) as Hiff.
  all: rewrite Hreq in Hiff.
  - assert (Hin : JStr prop_name ∈ required) by (by apply Hiff).
    split.
    + intros Hty. split; [|done].
      intros _. destruct (dict_get "type" kvs) as [ty|] eqn:E; simpl; [|done].
      destruct (is_str ty "array") eqn:Ea; [|done].
      destruct ty; simpl in Ea; try discriminate.
      apply String.eqb_eq in Ea. by subst.
    + intros ->. simpl. split; [done|]. intros _ upper Hup. split.
      * intros m -> Hm. simpl.
        destruct (Z.ltb_spec 0 m); [|lia].
        destruct Hup as [[-> ->]|(k & -> & ->)]; done.
      * intros Hmin.
        destruct Hmin as [-> | ->]; simpl;
        destruct Hup as [[-> ->]|(k & -> & ->)]; done.
  - assert (Hin : JStr prop_name ∉ required).
    { intros H. apply Hiff in H. discriminate. }
    split.
    + intros Hty. split; [done|].
      intros _. destruct (dict_get "type" kvs) as [ty|] eqn:E; simpl; [|done].
      destruct (is_str ty "array") eqn:Ea; [|done].
      destruct ty; simpl in Ea; try discriminate.
      apply String.eqb_eq in Ea. by subst.
    + intros ->. simpl. split; [|done]. intros _.
      destruct (dict_get "minItems" kvs), (dict_get "maxItems" kvs); done.
Qed.

Lemma get_type_string_obj (kvs : list (string * json)) :
  get_type_string repr_str (JObj kvs) =
  match dict_get "type" kvs with
  | Some schema_type =>
      match schema_type with
      | JArr names => ss ← strs_of names; Val (JStr (str_join " | " ss))
      | _ =>
          if is_str schema_type "array" then
            item_type ←
              match dict_get "items" kvs with
              | Some items => if py_truthy items then get_type_string repr_str items
                              else Val (JStr "any")
              | None => Val (JStr "any")
              end;
            Val (JStr ("array<" ++ py_str repr_str item_type ++ ">"))
          else if is_str schema_type "object" then Val (JStr "object")
          else Val schema_type
      end
  | None =>
      match dict_get "enum" kvs with
      | Some enum_values =>
          n ← py_len enum_values;
          if (n <=? 3)%nat then
            vs ← py_iter enum_values;
            Val (JStr ("enum(" ++ str_join ", " (map (py_str repr_str) vs) ++ ")"))
          else Val (JStr ("enum(" ++ pretty n ++ " values)"))
      | None =>
          if dict_has "oneOf" kvs then Val (JStr "oneOf")
          else if dict_has "anyOf" kvs then Val (JStr "anyOf")
          else if dict_has "allOf" kvs then Val (JStr "allOf")
          else match dict_get "$ref" kvs with
               | Some ref => Val (JStr ("ref(" ++ py_str repr_str ref ++ ")"))
               | None => Val (JStr "unknown")
               end
      end
  end.
Proof.
  cbn [get_type_string py_in py_getitem mbind res_bind].
  unfold dict_has at 1.
  destruct (dict_get "type" kvs) as [ty|] eqn:Ety.
  - rewrite dict_find_get.
    destruct ty; cbn [mbind res_bind]; try reflexivity;
      destruct (is_str _ "array"); try reflexivity;
      destruct (dict_get "items" kvs); reflexivity.
  - unfold dict_has at 1.
    destruct (dict_get "enum" kvs) as [ev|]; [reflexivity|].
    destruct (dict_has "oneOf" kvs); [reflexivity|].
    destruct (dict_has "anyOf" kvs); [reflexivity|].
    destruct (dict_has "allOf" kvs); [reflexivity|].
    unfold dict_has. destruct (dict_get "$ref" kvs); reflexivity.
Qed.

(** C4, amended.  The type signature of a schema mapping [kvs] follows
    the order explicit type, enum, combinator, reference, unknown: a list
    of type names is joined with " | "; type "array" wraps the signature
    derived for its items, and gives "array<any>" when [items] is absent or
    empty (falsy); any other type name is returned as it is, "object"
    included; without a type, an enum of at most three values lists them
    and a longer one gives their number; then [oneOf], [anyOf], [allOf] give
    their own name; then a reference gives "ref(token)", the token as
    written and not what it resolves to; anything else is "unknown". *)
Theorem get_type_string_rules (kvs : list (string * json)) :
  let result := get_type_string repr_str (JObj kvs) in
  (∀ names : list string,
      dict_get "type" kvs = Some (JArr (JStr <$> names)) →
      result = Val (JStr (str_join " | " names))) ∧
  (dict_get "type" kvs = Some (JStr "array") →
      (∀ items t, dict_get "items" kvs = Some items → py_truthy items = true →
                  get_type_string repr_str items = Val t →
                  result = Val (JStr ("array<" ++ py_str repr_str t ++ ">"))) ∧
      (dict_get "items" kvs = None ∨
       (∃ items, dict_get "items" kvs = Some items ∧ py_truthy items = false) →
       result = Val (JStr "array<any>"))) ∧
  (dict_get "type" kvs = Some (JStr "object") → result = Val (JStr "object")) ∧
  (∀ t : string, dict_get "type" kvs = Some (JStr t) → t ≠ "array" →
                 result = Val (JStr t)) ∧
  (dict_get "type" kvs = None →
     (∀ vs : list json, dict_get "enum" kvs = Some (JArr vs) →
        ((List.length vs ≤ 3)%nat →
         result = Val (JStr ("enum(" ++ str_join ", " (py_str repr_str <$> vs) ++ ")"))) ∧
        ((3 < List.length vs)%nat →
         result = Val (JStr ("enum(" ++ pretty (List.length vs) ++ " values)")))) ∧
     (dict_get "enum" kvs = None →
        (dict_has "oneOf" kvs = true → result = Val (JStr "oneOf")) ∧
        (dict_has "oneOf" kvs = false → dict_has "anyOf" kvs = true →
         result = Val (JStr "anyOf")) ∧
        (dict_has "oneOf" kvs = false → dict_has "anyOf" kvs = false →
         dict_has "allOf" kvs = true → result = Val (JStr "allOf")) ∧
        (dict_has "oneOf" kvs = false → dict_has "anyOf" kvs = false →
         dict_has "allOf" kvs = false →
         (∀ ref, dict_get "$ref" kvs = Some ref →
                 result = Val (JStr ("ref(" ++ py_str repr_str ref ++ ")"))) ∧
         (dict_get "$ref" kvs = None → result = Val (JStr "unknown"))))).
Proof.
  intros result. subst result. rewrite get_type_string_obj.
  split; [|split; [|split; [|split]]].
  - intros names ->. cbv beta iota. by rewrite strs_of_fmap.
  - intros Hty. rewrite Hty. split.
    + intros items t Hitems Htruthy Hrec. by rewrite Hitems, Htruthy, Hrec.
    + intros [-> | (items & -> & ->)]; done.
  - by intros ->.
  - intros t -> Ht. simpl.
    destruct (String.eqb_spec t "array"); [done|].
    by destruct (String.eqb_spec t "object"); subst.
  - intros Hty. rewrite Hty. split.
    + intros vs Henum. rewrite Henum. simpl.
      split; intros Hlen; destruct (Nat.leb_spec (List.length vs) 3);
        done || lia.
    + intros Henum. rewrite Henum. split; [|split; [|split]].
      * intros Hone. by rewrite Hone.
      * intros Hone Hany. by rewrite Hone, Hany.
      * intros Hone Hany Hall. by rewrite Hone, Hany, Hall.
      * intros Hone Hany Hall. rewrite Hone, Hany, Hall.
        split; [intros ref Href | intros Href]; by rewrite Href.
Qed.

End Derivers.

(** ** The loader and the resolver *)

Lemma bind_lift_val {A B : Type} (a : A) (k : A → method B) :
  (lift (Val a) ≫= k) = k a.
Proof. reflexivity. Qed.

Lemma set_resolved_refs_release (ref : atom) (self : visualizer) :
  ref ∉ resolved_refs self →
  set_resolved_refs (fun refs => refs ∖ {[ref]})
    (set_resolved_refs (fun refs => refs ∪ {[ref]}) self) = self.
Proof. apply set_resolved_refs_back. Qed.

Section Resolver.

Variable repr_str : string → string.
Variable fs : FileSystem.

(** The loader on a path that resolves. *)
Lemma load_schema_resolved (file_path : string) (self : visualizer) :
  (∀ e, fs_read fs (fs_locate fs file_path) ≠ Unresolvable e) →
  load_schema fs file_path self
  = match schema_cache self !! fs_resolve fs (fs_locate fs file_path) with
    | Some schema => Done schema self
    | None =>
        match fs_read fs (fs_locate fs file_path) with
        | Parses schema =>
            Done schema
              (set_schema_cache
                 (insert (fs_resolve fs (fs_locate fs file_path)) schema)
                 (log (Opened (fs_locate fs file_path)) self))
        | NoSuchFile =>
            Done (JObj [])
              (log (Printed ("Warning: Could not find file: "
                             ++ fs_locate fs file_path)) self)
        | Malformed err =>
            Done (JObj [])
              (log (Printed ("Warning: Error loading " ++ fs_locate fs file_path
                             ++ ": " ++ err))
                 (log (Opened (fs_locate fs file_path)) self))
        | Unresolvable e => Raised e self
        end
    end.
Proof.
  intros Hres. unfold load_schema, resolve.
  destruct (fs_read fs (fs_locate fs file_path)) as [e| | |] eqn:Hread;
    [by destruct (Hres e)|reflexivity..].
Qed.

(** The loader on a path that does not resolve: line 45 raises, before
    anything is looked up or opened. *)
Lemma load_schema_unresolvable (file_path : string) (e : exn)
    (self : visualizer) :
  fs_read fs (fs_locate fs file_path) = Unresolvable e →
  load_schema fs file_path self = Raised e self.
Proof. intros Hread. unfold load_schema, resolve. by rewrite Hread. Qed.

Lemma load_schema_frame (file_path : string) (self : visualizer) :
  ∃ self', final (load_schema fs file_path self) = Some self'
    ∧ resolved_refs self' = resolved_refs self
    ∧ properties self' = properties self.
Proof.
  destruct (fs_read fs (fs_locate fs file_path)) as [e| | |] eqn:Hread.
  { rewrite (load_schema_unresolvable _ e) by done. by eauto. }
  all: rewrite load_schema_resolved by (intros e; rewrite Hread; discriminate).
  all: destruct (schema_cache self !! _); [by eauto|].
  all: rewrite Hread; by eauto.
Qed.

(** The [try] block on a token that is a string. *)
Lemma resolve_body_str (ref : string) (current_schema : json)
    (current_path : string) :
  resolve_body fs (JStr ref) current_schema current_path
  = if String.prefix "#/" ref then
      mret (walk ref (str_split "/"%char (str_drop 2 ref)) current_schema)
    else if String.prefix "http" ref then
      mret (external_placeholder ref)
    else
      match str_split_once "#/" ref with
      | Some (file_part, fragment) =>
          schema ← load_schema fs (fs_sibling fs current_path file_part);
          mret (walk ref (str_split "/"%char fragment) schema)
      | None => load_schema fs (fs_sibling fs current_path ref)
      end.
Proof. reflexivity. Qed.

Lemma resolve_body_frame (token : json) (current_schema : json)
    (current_path : string) (self : visualizer) :
  ∃ self', final (resolve_body fs token current_schema current_path self)
           = Some self'
    ∧ resolved_refs self' = resolved_refs self
    ∧ properties self' = properties self.
Proof.
  destruct token as [| | |ref| |]; try (by eauto).
  rewrite resolve_body_str.
  destruct (String.prefix "#/" ref); [by eauto|].
  destruct (String.prefix "http" ref); [by eauto|].
  destruct (str_split_once "#/" ref) as [[file_part fragment]|].
  - destruct (load_schema_frame (fs_sibling fs current_path file_part) self)
      as (self' & Hl & ? & ?).
    unfold mbind, method_bind.
    destruct (load_schema fs _ self) as [doc s|e s|]; [| |done];
      injection Hl as ->; by eauto.
  - apply load_schema_frame.
Qed.

(** The resolver on a token that is a string. *)
Lemma resolve_reference_str (ref : string) (current_schema : json)
    (current_path : string) (self : visualizer) :
  resolve_reference repr_str fs (JStr ref) current_schema current_path self
  = if bool_decide (AStr ref ∈ resolved_refs self) then
      Done (circular_placeholder ref) self
    else
      try_finally (resolve_body fs (JStr ref) current_schema current_path)
        (set_resolved_refs (fun refs => refs ∖ {[AStr ref]}))
        (set_resolved_refs (fun refs => refs ∪ {[AStr ref]}) self).
Proof. reflexivity. Qed.


(** The resolver on an internal token made of [keys]. *)
Lemma resolve_reference_walk (keys : list string) (ref : string)
    (holder : json) (current_path : string) (self : visualizer) :
  ref = "#/" ++ str_join "/" keys →
  keys ≠ [] →
  Forall (fun k => str_contains "/" k = false) keys →
  AStr ref ∉ resolved_refs self →
  resolve_reference repr_str fs (JStr ref) holder current_path self
  = Done (walk ref keys holder) self.
Proof.
  intros Href Hne Hall Hfresh.
  rewrite resolve_reference_str, bool_decide_eq_false_2 by done.
  unfold try_finally. rewrite resolve_body_str.
  assert (Hpre : String.prefix "#/" ref = true)
    by (rewrite Href; apply prefix_app).
  assert (Hdrop : str_drop 2 ref = str_join "/" keys) by by rewrite Href.
  rewrite Hpre, Hdrop, (str_split_join "/" keys Hne Hall).
  cbn [mret method_ret]. f_equal.
  by apply set_resolved_refs_release.
Qed.

(** The resolver on a token that can be hashed and is not a string:
    the token is added, [startswith] raises inside the [try], and the
    [finally] discards the token again. *)
Lemma resolve_reference_not_str (token : json) (key : atom)
    (current_schema : json) (current_path : string) (self : visualizer) :
  py_hash token = Val key →
  (∀ ref, token ≠ JStr ref) →
  key ∉ resolved_refs self →
  resolve_reference repr_str fs token current_schema current_path self
  = Raised AttributeError self.
Proof.
  intros Hhash Hshape Hfresh. unfold resolve_reference.
  rewrite Hhash, bind_lift_val, bool_decide_eq_false_2 by done.
  unfold try_finally, resolve_body.
  destruct token as [| | |ref| |]; try discriminate;
    [| | |by destruct (Hshape ref)].
  all: cbn [py_str_method lift mbind method_bind]; f_equal.
  all: by apply set_resolved_refs_release.
Qed.

(** The resolver gives the set of references back as it found it. *)
Lemma resolve_reference_frame (ref current_schema : json)
    (current_path : string) (self : visualizer) :
  ∃ self', final (resolve_reference repr_str fs ref current_schema current_path
                    self) = Some self'
    ∧ resolved_refs self' = resolved_refs self.
Proof.
  unfold resolve_reference.
  destruct (py_hash ref) as [key|e]; [|by eauto].
  rewrite bind_lift_val. case_bool_decide as Hin; [by eauto|].
  unfold try_finally.
  destruct (resolve_body_frame ref current_schema current_path
              (set_resolved_refs (λ refs, refs ∪ {[key]}) self))
    as (self' & Hfinal & Hrefs & _).
  destruct (resolve_body fs ref _ _ _) as [frag s|e s|]; [| |done];
    injection Hfinal as ->; eexists; (split; [reflexivity|]); cbn;
    rewrite Hrefs; cbn; by apply add_discard.
Qed.

(** C9.  Every call of [resolve_reference] returns or raises, and leaves
    the set of references being resolved as it found it, whatever the
    token is and however the call ends: with the placeholder of a token
    that is being resolved, with a fragment or another placeholder, or with
    an exception.  The call does end with an exception, after the token
    was added, when the token is [None], a boolean or a number, and when it
    names a file whose path cannot be resolved; the visualizer is then
    wholly as it was. *)
Theorem resolve_reference_releases (ref current_schema : json)
    (current_path : string) (self : visualizer) :
  resolved_refs
    <$> final (resolve_reference repr_str fs ref current_schema current_path self)
  = Some (resolved_refs self)
  ∧ (∀ key, py_hash ref = Val key → key ∉ resolved_refs self →
       (∀ token, ref ≠ JStr token) →
       resolve_reference repr_str fs ref current_schema current_path self
       = Raised AttributeError self)
  ∧ (∀ token e, ref = JStr token → AStr token ∉ resolved_refs self →
       str_contains "#/" token = false → String.prefix "http" token = false →
       fs_read fs (fs_locate fs (fs_sibling fs current_path token))
       = Unresolvable e →
       resolve_reference repr_str fs ref current_schema current_path self
       = Raised e self).
Proof.
  split; [|split].
  - destruct (resolve_reference_frame ref current_schema current_path self)
      as (self' & -> & Hrefs).
    cbn. by rewrite Hrefs.
  - intros key Hhash Hfresh Hshape. by eapply resolve_reference_not_str.
  - intros token e -> Hfresh Hwhole Hhttp Hread.
    rewrite resolve_reference_str, bool_decide_eq_false_2 by done.
    unfold try_finally.
    rewrite resolve_body_str, (str_contains_prefix _ _ Hwhole), Hhttp.
    rewrite (str_split_once_none _ _ Hwhole).
    rewrite (load_schema_unresolvable _ e) by done.
    f_equal. by apply set_resolved_refs_release.
Qed.

End Resolver.

(** ** The walker *)

Section Walker.

Variable repr_str : string → string.
Variable fs : FileSystem.

Lemma visit_combinators_first (current_file : string)
    (visit : json → string → json → method unit)
    (kvs : list (string * json)) (key : string) (branches : json)
    (path : string) (parent_required : json) :
  first_combinator kvs = Some (key, branches) →
  visit_combinators repr_str fs current_file visit ["allOf"; "anyOf"; "oneOf"]
    (JObj kvs) path
    parent_required
  = (subs ← lift (py_iter branches);
     for_each subs (fun sub_schema =>
       visit sub_schema (sub_path key path) parent_required)).
Proof.
  unfold first_combinator, visit_combinators, py_in, py_getitem, dict_has.
  destruct (dict_get "allOf" kvs); [by intros [= <- <-]|].
  destruct (dict_get "anyOf" kvs); [by intros [= <- <-]|].
  destruct (dict_get "oneOf" kvs); [by intros [= <- <-]|done].
Qed.


(** Lines 187-197 on a fragment without ["$ref"]: the loop over the
    value of the first combinator key present. *)
Lemma parse_schema_combinator (fuel : nat) (kvs : list (string * json))
    (key : string) (branches : json) (path : string) (parent_required : json)
    (current_file : string) (self : visualizer) :
  dict_get "$ref" kvs = None →
  first_combinator kvs = Some (key, branches) →
  parse_schema repr_str fs (S fuel) (JObj kvs) path parent_required current_file self
  = (subs ← lift (py_iter branches);
     for_each subs (fun sub_schema =>
       parse_schema repr_str fs fuel sub_schema (sub_path key path)
         parent_required current_file)) self.
Proof.
  intros Href Hfirst. cbn [parse_schema]. unfold parse_step.
  cbn [py_in]. unfold dict_has. rewrite Href.
  cbn [lift mbind method_bind].
  by rewrite (visit_combinators_first current_file _ _ _ _ _ _ Hfirst).
Qed.

(** The combinator the walker takes is the only combinator of the
    fragment reduced to it. *)
Lemma first_combinator_alone (kvs : list (string * json)) (key : string)
    (branches : json) :
  first_combinator kvs = Some (key, branches) →
  dict_get "$ref" [(key, branches)] = None
  ∧ first_combinator [(key, branches)] = Some (key, branches).
Proof.
  unfold first_combinator.
  destruct (dict_get "allOf" kvs); [by intros [= <- <-]|].
  destruct (dict_get "anyOf" kvs); [by intros [= <- <-]|].
  destruct (dict_get "oneOf" kvs); [by intros [= <- <-]|done].
Qed.

Lemma parse_schema_ref (fuel : nat) (kvs : list (string * json)) (ref : json)
    (path : string) (parent_required : json) (current_file : string)
    (self : visualizer) :
  dict_get "$ref" kvs = Some ref →
  parse_schema repr_str fs (S fuel) (JObj kvs) path parent_required current_file self
  = match resolve_reference repr_str fs ref (JObj kvs) current_file self with
    | Done resolved self' =>
        parse_schema repr_str fs fuel resolved path parent_required current_file self'
    | Raised e self' => Raised e self'
    | OutOfFuel => OutOfFuel
    end.
Proof.
  intros Href. cbn [parse_schema]. unfold parse_step, follow_ref.
  cbn [py_in py_getitem]. unfold dict_has. rewrite Href. reflexivity.
Qed.

End Walker.



(** ** Well-formed schemas *)

Lemma dict_get_In (k : string) (kvs : list (string * json)) (v : json) :
  dict_get k kvs = Some v → In (k, v) kvs.
Proof.
  induction kvs as [|[k' v'] kvs IH]; simpl; [done|].
  destruct (String.eqb_spec k' k) as [->|Hne].
  - intros [= ->]. by left.
  - intros H. right. by apply IH.
Qed.

Lemma schema_ok_entry (c : bool) (kvs : list (string * json)) (k : string)
    (v : json) :
  schema_ok c (JObj kvs) = true → dict_get k kvs = Some v →
  entry_ok c (schema_ok c) (k, v) = true.
Proof.
  cbn [schema_ok]. intros Hall Hget.
  rewrite forallb_forall in Hall. apply Hall. by apply dict_get_In.
Qed.

Lemma schema_ok_obj (c : bool) (schema : json) :
  schema_ok c schema = true → ∃ kvs, schema = JObj kvs.
Proof. destruct schema; try discriminate. by eauto. Qed.

Lemma json_size_pos (v : json) : (1 ≤ json_size v)%nat.
Proof. destruct v; simpl; lia. Qed.

Lemma json_size_get (k : string) (kvs : list (string * json)) (v : json) :
  dict_get k kvs = Some v → (json_size v < json_size (JObj kvs))%nat.
Proof.
  intros Hin%dict_get_In. cbn [json_size].
  induction kvs as [|kv kvs IH]; [done|].
  destruct Hin as [->|Hin]; simpl in *; [lia|].
  specialize (IH Hin). lia.
Qed.

Lemma json_size_prop (props : list (string * json)) (item : string * json) :
  In item props → (json_size (snd item) < json_size (JObj props))%nat.
Proof.
  cbn [json_size]. induction props as [|kv props IH]; [done|].
  intros [->|Hin]; simpl in *; [lia|]. specialize (IH Hin). lia.
Qed.

Lemma json_size_elem (xs : list json) (x : json) :
  In x xs → (json_size x < json_size (JArr xs))%nat.
Proof.
  cbn [json_size]. induction xs as [|y xs IH]; [done|].
  intros [->|Hin]; simpl in *; [lia|]. specialize (IH Hin). lia.
Qed.

Lemma strs_of_strings (names : list json) :
  forallb is_string names = true → ∃ ss, strs_of names = Val ss.
Proof.
  induction names as [|x names IH]; simpl; [by eauto|].
  intros [Hx Hrest]%andb_true_iff. destruct x; try discriminate.
  destruct (IH Hrest) as [ss ->]. by eauto.
Qed.

Lemma object_like_obj (kvs : list (string * json)) :
  object_like (JObj kvs) = Val (is_object_like (JObj kvs)).
Proof.
  unfold object_like, is_object_like. cbn [py_get py_in].
  destruct (dict_get "type" kvs) as [ty|]; cbn [mbind res_bind]; [|done].
  by destruct (is_str ty "object").
Qed.

Lemma array_with_items_obj (kvs : list (string * json)) :
  array_with_items (JObj kvs)
  = Val (match array_items (JObj kvs) with Some _ => true | None => false end).
Proof.
  unfold array_with_items, array_items. cbn [py_get py_in].
  destruct (dict_get "type" kvs) as [ty|]; cbn [mbind res_bind]; [|done].
  destruct (is_str ty "array"); [|done].
  unfold dict_has. by destruct (dict_get "items" kvs).
Qed.

Lemma array_items_get (kvs : list (string * json)) (items : json) :
  array_items (JObj kvs) = Some items → dict_get "items" kvs = Some items.
Proof.
  unfold array_items. destruct (dict_get "type" kvs) as [ty|]; [|done].
  by destruct (is_str ty "array").
Qed.

Section Totality.

Variable repr_str : string → string.

Lemma get_type_string_total (c : bool) (n : nat) (schema : json) :
  (json_size schema ≤ n)%nat → schema_ok c schema = true →
  ∃ t, get_type_string repr_str schema = Val t.
Proof.
  revert schema. induction n as [|n IH]; intros schema Hsize Hok.
  { pose proof (json_size_pos schema). lia. }
  destruct (schema_ok_obj _ _ Hok) as [kvs ->].
  rewrite get_type_string_obj.
  destruct (dict_get "type" kvs) as [ty|] eqn:Hty.
  - pose proof (schema_ok_entry _ _ _ _ Hok Hty) as Hent. cbn in Hent.
    destruct ty; try discriminate.
    + destruct (is_str (JStr s) "array"); [|destruct (is_str _ "object"); by eauto].
      destruct (dict_get "items" kvs) as [items|] eqn:Hitems; [|by eauto].
      destruct (py_truthy items); [|by eauto].
      pose proof (schema_ok_entry _ _ _ _ Hok Hitems) as Hi. cbn in Hi.
      pose proof (json_size_get _ _ _ Hitems).
      destruct (IH items) as [t ->]; [lia|done|]. by eauto.
    + destruct (strs_of_strings _ Hent) as [ss ->]. by eauto.
  - destruct (dict_get "enum" kvs) as [ev|] eqn:Henum.
    + pose proof (schema_ok_entry _ _ _ _ Hok Henum) as Hent. cbn in Hent.
      destruct ev; try discriminate. cbn [py_len py_iter mbind res_bind].
      destruct (List.length xs <=? 3)%nat; by eauto.
    + destruct (dict_has "oneOf" kvs); [by eauto|].
      destruct (dict_has "anyOf" kvs); [by eauto|].
      destruct (dict_has "allOf" kvs); [by eauto|].
      destruct (dict_get "$ref" kvs); by eauto.
Qed.

Lemma get_cardinality_total (c : bool) (schema required : json)
    (prop_name : string) :
  schema_ok c schema = true → is_list required = true →
  ∃ card, get_cardinality repr_str schema required prop_name = Val card.
Proof.
  intros Hok Hreq. destruct (schema_ok_obj _ _ Hok) as [kvs ->].
  destruct required as [| | | |xs|]; try discriminate.
  unfold get_cardinality. cbn [py_in py_get mbind res_bind].
  set (is_required := existsb _ xs).
  destruct (dict_get "type" kvs) as [ty|]; cbn [mbind res_bind];
    [|by eauto].
  destruct (is_str ty "array"); [|by eauto].
  destruct (dict_get "minItems" kvs) as [mi|] eqn:Hmin.
  - pose proof (schema_ok_entry _ _ _ _ Hok Hmin) as Hent. cbn in Hent.
    destruct mi; try discriminate. cbn [mbind res_bind].
    destruct (dict_get "maxItems" kvs) as [ma|]; cbn [mbind res_bind py_gt0];
      destruct is_required; try (by eauto);
      destruct (0 <? n)%Z; destruct (is_none _); by eauto.
  - cbn [mbind res_bind].
    destruct (dict_get "maxItems" kvs) as [ma|]; cbn [mbind res_bind py_gt0];
      destruct is_required; try (by eauto);
      cbn; destruct (is_none _); by eauto.
Qed.

End Totality.

(** ** What the walker emits *)

Lemma set_properties_nil (self : visualizer) :
  set_properties (fun ps => ps ++ [])%list self = self.
Proof. destruct self. unfold set_properties. simpl. by rewrite app_nil_r. Qed.

Lemma set_properties_app (new new' : list SchemaProperty) (self : visualizer) :
  set_properties (fun ps => ps ++ new')%list
    (set_properties (fun ps => ps ++ new)%list self)
  = set_properties (fun ps => ps ++ (new ++ new'))%list self.
Proof. destruct self. unfold set_properties. simpl. by rewrite app_assoc. Qed.


Lemma emits_ret : emits (mret tt) [].
Proof. intros self. exists []. by rewrite set_properties_nil. Qed.

Lemma emits_seq (m k : method unit) (rows rows' : list (string * string)) :
  emits m rows → emits k rows' → emits (m ;; k) (rows ++ rows')%list.
Proof.
  intros Hm Hk self. destruct (Hm self) as (new & Hrun & Hrows).
  destruct (Hk (set_properties (fun ps => ps ++ new)%list self))
    as (new' & Hrun' & Hrows').
  exists (new ++ new')%list. unfold mbind, method_bind. rewrite Hrun, Hrun'.
  by rewrite set_properties_app, map_app, Hrows, Hrows'.
Qed.

Lemma emits_for_each {A : Type} (xs : list A) (body : A → method unit)
    (rows : A → list (string * string)) :
  (∀ x, In x xs → emits (body x) (rows x)) →
  emits (for_each xs body) (flat_map rows xs).
Proof.
  induction xs as [|x xs IH]; intros Hbody; cbn [for_each flat_map].
  - apply emits_ret.
  - apply emits_seq; [apply Hbody; by left|].
    apply IH. intros y Hy. apply Hbody. by right.
Qed.

Section Emits.

Variable repr_str : string → string.
Variable fs : FileSystem.
Variable current_file : string.

Lemma record_emits (c : bool) (path prop_name : string)
    (prop_schema required : json) :
  schema_ok c prop_schema = true → is_list required = true →
  emits (record repr_str path prop_name prop_schema required)
        [(shown path, prop_name)].
Proof.
  intros Hok Hreq self.
  destruct (get_type_string_total repr_str c _ _ (Nat.le_refl _) Hok) as [t Ht].
  destruct (get_cardinality_total repr_str c _ _ prop_name Hok Hreq) as [card Hc].
  destruct (schema_ok_obj _ _ Hok) as [kvs ->].
  unfold record. rewrite Ht, Hc. cbn [lift mbind method_bind py_get].
  destruct (dict_get "description" kvs); eexists [_]; split; reflexivity.
Qed.

Section Recursion.

Variable c : bool.
Variable visit : json → string → json → method unit.
Variable deeper : json → string → list (string * string).
Variable bound : nat.

(** The recursive calls behave as [deeper] says on every well-formed
    fragment below the bound. *)
Hypothesis visit_emits :
  ∀ (sub : json) (path : string) (required : json),
    schema_ok c sub = true → (json_size sub < bound)%nat →
    emits (visit sub path required) (deeper sub path).

Lemma visit_property_emits (path : string) (required : json)
    (item : string * json) :
  schema_ok c (snd item) = true → is_list required = true →
  (json_size (snd item) < bound)%nat →
  emits (visit_property repr_str fs current_file visit path required item)
        (property_rows deeper path item).
Proof.
  destruct item as [prop_name prop_schema]. cbn [fst snd].
  intros Hok Hreq Hsize. unfold visit_property, property_rows.
  cbv zeta. cbn [fst snd].
  change ((shown path, prop_name) :: ?rest)
    with ([(shown path, prop_name)] ++ rest)%list.
  apply emits_seq; [by eapply record_emits|].
  destruct (schema_ok_obj _ _ Hok) as [kvs ->].
  rewrite object_like_obj. rewrite bind_lift_val.
  destruct (is_object_like (JObj kvs)) eqn:Hobj.
  { intros self. by apply visit_emits. }
  rewrite array_with_items_obj. rewrite bind_lift_val.
  destruct (array_items (JObj kvs)) as [items|] eqn:Harr.
  - apply array_items_get in Harr.
    pose proof (schema_ok_entry _ _ _ _ Hok Harr) as Hi. cbn in Hi.
    pose proof (json_size_get _ _ _ Harr).
    cbn [py_getitem]. rewrite Harr. rewrite bind_lift_val.
    destruct (schema_ok_obj _ _ Hi) as [ikvs ->].
    rewrite object_like_obj. rewrite bind_lift_val.
    destruct (is_object_like (JObj ikvs)).
    + intros self. apply visit_emits; [done|lia].
    + cbn [py_in]. unfold dict_has.
      destruct (dict_get "$ref" ikvs) as [r|] eqn:Hr.
      { pose proof (schema_ok_entry _ _ _ _ Hi Hr) as Hbad. discriminate Hbad. }
      apply emits_ret.
  - cbn [py_in]. unfold dict_has.
    destruct (dict_get "$ref" kvs) as [r|] eqn:Hr.
    { pose proof (schema_ok_entry _ _ _ _ Hok Hr) as Hbad. discriminate Hbad. }
    apply emits_ret.
Qed.

Lemma visit_plain_emits (schema : json) (path : string) :
  schema_ok c schema = true → (json_size schema ≤ bound)%nat →
  emits (visit_plain repr_str fs current_file visit schema path)
        (plain_rows deeper schema path).
Proof.
  intros Hok Hsize. destruct (schema_ok_obj _ _ Hok) as [kvs ->].
  unfold visit_plain, plain_rows.
  rewrite object_like_obj. rewrite bind_lift_val.
  destruct (is_object_like (JObj kvs)) eqn:Hobj.
  - cbn [py_get declared_in].
    assert (Hreq : ∃ required,
               default (JArr []) (dict_get "required" kvs) = required
               ∧ is_list required = true).
    { destruct (dict_get "required" kvs) as [r|] eqn:Hr; [|by eauto].
      pose proof (schema_ok_entry _ _ _ _ Hok Hr) as Hent. by eauto. }
    destruct Hreq as (required & Hreq & Hlist).
    destruct (dict_get "properties" kvs) as [props|] eqn:Hprops.
    + pose proof (schema_ok_entry _ _ _ _ Hok Hprops) as Hent. cbn in Hent.
      destruct props as [| | | | |ps]; try discriminate.
      pose proof (json_size_get _ _ _ Hprops) as Hps.
      rewrite forallb_forall in Hent.
      destruct (dict_get "required" kvs) as [r|]; cbn [py_items]; rewrite !bind_lift_val;
        simpl in Hreq; subst required.
      all: apply emits_for_each; intros item Hin;
        apply visit_property_emits; [by apply Hent | done |];
        pose proof (json_size_prop _ _ Hin); lia.
    + destruct (dict_get "required" kvs) as [r|];
        cbn [py_items]; rewrite !bind_lift_val; cbn [for_each]; apply emits_ret.
  - rewrite array_with_items_obj. rewrite bind_lift_val.
    destruct (array_items (JObj kvs)) as [items|] eqn:Harr; [|apply emits_ret].
    apply array_items_get in Harr.
    pose proof (schema_ok_entry _ _ _ _ Hok Harr) as Hi. cbn in Hi.
    pose proof (json_size_get _ _ _ Harr).
    cbn [py_getitem]. rewrite Harr. rewrite bind_lift_val.
    destruct (schema_ok_obj _ _ Hi) as [ikvs ->].
    rewrite object_like_obj. rewrite bind_lift_val.
    destruct (is_object_like (JObj ikvs)); [|apply emits_ret].
    replace (if negb (String.eqb path "") then path ++ "[]" else "[]")
      with (path ++ "[]").
    + intros self. apply visit_emits; [done|lia].
    + destruct (String.eqb_spec path ""); by subst.
Qed.

End Recursion.

End Emits.

Lemma schema_ok_no_ref (c : bool) (kvs : list (string * json)) :
  schema_ok c (JObj kvs) = true → dict_get "$ref" kvs = None.
Proof.
  intros Hok. destruct (dict_get "$ref" kvs) as [r|] eqn:Hr; [|done].
  pose proof (schema_ok_entry _ _ _ _ Hok Hr) as Hbad. discriminate Hbad.
Qed.

Lemma schema_ok_no_combinator (kvs : list (string * json)) :
  schema_ok false (JObj kvs) = true → first_combinator kvs = None.
Proof.
  intros Hok. unfold first_combinator.
  destruct (dict_get "allOf" kvs) as [b|] eqn:Hall.
  { pose proof (schema_ok_entry _ _ _ _ Hok Hall) as Hbad. discriminate Hbad. }
  destruct (dict_get "anyOf" kvs) as [b|] eqn:Hany.
  { pose proof (schema_ok_entry _ _ _ _ Hok Hany) as Hbad. discriminate Hbad. }
  destruct (dict_get "oneOf" kvs) as [b|] eqn:Hone; [|done].
  pose proof (schema_ok_entry _ _ _ _ Hok Hone) as Hbad. discriminate Hbad.
Qed.

Lemma first_combinator_get (kvs : list (string * json)) (key : string)
    (branches : json) :
  first_combinator kvs = Some (key, branches) →
  dict_get key kvs = Some branches
  ∧ (key = "allOf" ∨ key = "anyOf" ∨ key = "oneOf").
Proof.
  unfold first_combinator.
  destruct (dict_get "allOf" kvs) eqn:Hall; [intros [= <- <-]; by eauto|].
  destruct (dict_get "anyOf" kvs) eqn:Hany; [intros [= <- <-]; by eauto|].
  destruct (dict_get "oneOf" kvs) eqn:Hone; [intros [= <- <-]; by eauto|done].
Qed.

Section Reached.

Variable repr_str : string → string.
Variable fs : FileSystem.

Lemma visit_combinators_none (current_file : string)
    (visit : json → string → json → method unit)
    (kvs : list (string * json)) (path : string) (parent_required : json) :
  first_combinator kvs = None →
  visit_combinators repr_str fs current_file visit ["allOf"; "anyOf"; "oneOf"]
    (JObj kvs) path parent_required
  = visit_plain repr_str fs current_file visit (JObj kvs) path.
Proof.
  unfold first_combinator, visit_combinators, py_in, dict_has.
  destruct (dict_get "allOf" kvs); [done|].
  destruct (dict_get "anyOf" kvs); [done|].
  by destruct (dict_get "oneOf" kvs).
Qed.

Lemma parse_schema_no_ref (fuel : nat) (kvs : list (string * json))
    (path : string) (parent_required : json) (current_file : string) :
  dict_get "$ref" kvs = None →
  parse_schema repr_str fs (S fuel) (JObj kvs) path parent_required current_file
  = visit_combinators repr_str fs current_file
      (fun sub_schema path' required =>
         parse_schema repr_str fs fuel sub_schema path' required current_file)
      ["allOf"; "anyOf"; "oneOf"] (JObj kvs) path parent_required.
Proof.
  intros Href. cbn [parse_schema]. unfold parse_step.
  cbn [py_in]. unfold dict_has. rewrite Href. by rewrite bind_lift_val.
Qed.

Lemma parse_schema_declared (fuel : nat) (schema : json) (path : string)
    (parent_required : json) (current_file : string) :
  schema_ok false schema = true → (json_size schema ≤ fuel)%nat →
  emits (parse_schema repr_str fs fuel schema path parent_required current_file)
        (declared fuel schema path).
Proof.
  revert schema path parent_required.
  induction fuel as [|fuel IH]; intros schema path parent_required Hok Hsize.
  { pose proof (json_size_pos schema). lia. }
  destruct (schema_ok_obj _ _ Hok) as [kvs ->].
  rewrite parse_schema_no_ref by by eapply schema_ok_no_ref.
  rewrite visit_combinators_none by by apply schema_ok_no_combinator.
  cbn [declared].
  apply (visit_plain_emits repr_str fs current_file false _ _ (S fuel));
    [|done|done].
  intros sub path' required Hsub Hlt. apply IH; [done|lia].
Qed.

Lemma parse_schema_reach (fuel : nat) (schema : json) (path : string)
    (parent_required : json) (current_file : string) :
  schema_ok true schema = true → (json_size schema ≤ fuel)%nat →
  emits (parse_schema repr_str fs fuel schema path parent_required current_file)
        (reach fuel schema path).
Proof.
  revert schema path parent_required.
  induction fuel as [|fuel IH]; intros schema path parent_required Hok Hsize.
  { pose proof (json_size_pos schema). lia. }
  destruct (schema_ok_obj _ _ Hok) as [kvs ->].
  rewrite parse_schema_no_ref by by eapply schema_ok_no_ref.
  cbn [reach].
  destruct (first_combinator kvs) as [[key branches]|] eqn:Hfirst.
  - rewrite (visit_combinators_first repr_str fs current_file _ _ _ _ _ _ Hfirst).
    destruct (first_combinator_get _ _ _ Hfirst) as [Hget Hkey].
    pose proof (schema_ok_entry _ _ _ _ Hok Hget) as Hent.
    pose proof (json_size_get _ _ _ Hget) as Hb.
    assert (Hbr : ∃ bs, branches = JArr bs ∧ forallb (schema_ok true) bs = true).
    { destruct Hkey as [->|[->| ->]]; cbn in Hent;
        destruct branches; try discriminate; by eauto. }
    destruct Hbr as (bs & -> & Hall). rewrite forallb_forall in Hall.
    cbn [py_iter]. rewrite bind_lift_val.
    apply emits_for_each. intros b Hin.
    pose proof (json_size_elem _ _ Hin).
    apply IH; [by apply Hall|lia].
  - rewrite visit_combinators_none by done.
    apply (visit_plain_emits repr_str fs current_file true _ _ (S fuel));
      [|done|done].
    intros sub path' required Hsub Hlt. apply IH; [done|lia].
Qed.

End Reached.

(** The depth bound of [declared] does not matter once it covers the
    schema. *)
Lemma plain_rows_ext (deeper deeper' : json → string → list (string * string))
    (schema : json) (path : string) :
  (∀ sub path', (json_size sub < json_size schema)%nat →
                deeper sub path' = deeper' sub path') →
  plain_rows deeper schema path = plain_rows deeper' schema path.
Proof.
  intros Hsame. unfold plain_rows.
  destruct (is_object_like schema).
  - destruct schema as [| | | | |kvs]; try done. cbn [declared_in].
    destruct (dict_get "properties" kvs) as [props|] eqn:Hprops; [|done].
    destruct props as [| | | | |ps]; try done.
    pose proof (json_size_get _ _ _ Hprops) as Hps.
    assert (Hitems : ∀ item, In item ps →
              property_rows deeper path item = property_rows deeper' path item).
    { intros item Hin. pose proof (json_size_prop _ _ Hin) as Hlt.
      unfold property_rows. f_equal.
      destruct (is_object_like (snd item)); [apply Hsame; lia|].
      destruct (array_items (snd item)) as [items|] eqn:Harr; [|done].
      destruct (is_object_like items); [|done].
      destruct (snd item) as [| | | | |ikvs] eqn:Hitem; try done.
      apply array_items_get, json_size_get in Harr. apply Hsame. lia. }
    clear Hps Hprops. induction ps as [|item ps IH]; [done|].
    cbn [flat_map]. rewrite Hitems by by left.
    rewrite IH; [done|]. intros item' Hin. apply Hitems. by right.
  - destruct (array_items schema) as [items|] eqn:Harr; [|done].
    destruct (is_object_like items); [|done].
    destruct schema as [| | | | |kvs]; try done.
    apply array_items_get, json_size_get in Harr. by apply Hsame.
Qed.

Lemma declared_stable (depth : nat) (schema : json) (path : string) :
  (json_size schema ≤ depth)%nat →
  declared depth schema path = declared_properties schema path.
Proof.
  unfold declared_properties.
  assert (Hany : ∀ n schema path d d',
             (json_size schema ≤ n)%nat →
             (json_size schema ≤ d)%nat → (json_size schema ≤ d')%nat →
             declared d schema path = declared d' schema path).
  { clear. induction n as [|n IH]; intros schema path d d' Hn Hd Hd'.
    { pose proof (json_size_pos schema). lia. }
    destruct d as [|d]; [pose proof (json_size_pos schema); lia|].
    destruct d' as [|d']; [pose proof (json_size_pos schema); lia|].
    cbn [declared]. apply plain_rows_ext.
    intros sub path' Hlt. apply IH; lia. }
  intros Hd. by apply (Hany (json_size schema)).
Qed.

(** ** The walk of a well-formed schema *)

Section Schemas.

Variable repr_str : string → string.
Variable fs : FileSystem.

(** C5, amended.  On a well-formed schema without references and
    combinators, given fuel for its size, the walker returns, changes
    nothing but the list of rows, and appends exactly one row per declared
    property of every level it reaches, in key order, each followed by the
    rows of the level below it: the properties of an object-like fragment,
    of an object-like property and of the object-like items of an array
    property or of the fragment itself.  It does not look inside the items
    of an array that is itself the items of an array, nor at the items of
    an object-like fragment. *)
Theorem parse_schema_declared_properties (fuel : nat) (schema : json)
    (path : string) (parent_required : json) (current_file : string)
    (self : visualizer) :
  schema_ok false schema = true →
  (json_size schema ≤ fuel)%nat →
  ∃ new : list SchemaProperty,
    parse_schema repr_str fs fuel schema path parent_required current_file self
    = Done tt (set_properties (fun ps => ps ++ new)%list self)
    ∧ map row_key new = declared_properties schema path.
Proof.
  intros Hok Hsize.
  destruct (parse_schema_declared repr_str fs fuel schema path parent_required
              current_file Hok Hsize self) as (new & Hrun & Hrows).
  exists new. split; [done|]. by rewrite Hrows, declared_stable.
Qed.

(** C7, amended.  On every well-formed schema without references, with or
    without combinators, the walker returns without raising once it has
    fuel for the size of the schema, and changes nothing but the list of
    rows.  The walker catches no exception itself. *)
Theorem parse_schema_total (fuel : nat) (schema : json) (path : string)
    (parent_required : json) (current_file : string) (self : visualizer) :
  schema_ok true schema = true →
  (json_size schema ≤ fuel)%nat →
  ∃ new : list SchemaProperty,
    parse_schema repr_str fs fuel schema path parent_required current_file self
    = Done tt (set_properties (fun ps => ps ++ new)%list self).
Proof.
  intros Hok Hsize.
  destruct (parse_schema_reach repr_str fs fuel schema path parent_required
              current_file Hok Hsize self) as (new & Hrun & _).
  by exists new.
Qed.

(** C10.  In a fragment without ["$ref"] whose first combinator key, in
    the order [allOf], [anyOf], [oneOf], holds a list of branches: when the
    branches are well-formed schemas without references and combinators,
    the walker returns having appended exactly the rows of the declared
    properties of these branches, branch after branch, at the path that key
    gives ([path] for [allOf], [path[or]/] for [anyOf], [path[xor]/] for
    [oneOf]), and nothing else: no row comes from the branches under
    another combinator key, nor from anything else the fragment holds.
    Whatever the branches are, the walk is the walk of the fragment
    reduced to that one key. *)
Theorem first_combinator_only (fuel : nat) (kvs : list (string * json))
    (key : string) (branches : json) (path : string) (parent_required : json)
    (current_file : string) (self : visualizer) :
  dict_get "$ref" kvs = None →
  first_combinator kvs = Some (key, branches) →
  (∀ (subs : list json) (branch_path : string),
     branches = JArr subs →
     (key = "allOf" ∧ branch_path = path)
     ∨ (key = "anyOf" ∧ branch_path = path ++ "[or]/")
     ∨ (key = "oneOf" ∧ branch_path = path ++ "[xor]/") →
     Forall (fun b => schema_ok false b = true ∧ (json_size b ≤ fuel)%nat) subs →
     ∃ new : list SchemaProperty,
       parse_schema repr_str fs (S fuel) (JObj kvs) path parent_required
         current_file self
       = Done tt (set_properties (fun ps => ps ++ new)%list self)
       ∧ map row_key new
         = flat_map (fun b => declared_properties b branch_path) subs)
  ∧ parse_schema repr_str fs (S fuel) (JObj kvs) path parent_required
      current_file self
    = parse_schema repr_str fs (S fuel) (JObj [(key, branches)]) path
        parent_required current_file self.
Proof.
  intros Href Hfirst. split.
  - intros subs branch_path -> Hkey Hsubs.
    rewrite (parse_schema_combinator _ _ _ _ _ _ _ _ _ _ Href Hfirst).
    cbn [py_iter]. rewrite bind_lift_val.
    assert (Hpath : sub_path key path = branch_path)
      by (by destruct Hkey as [[-> ->]|[[-> ->]|[-> ->]]]).
    rewrite Hpath. rewrite Forall_forall in Hsubs.
    apply (emits_for_each subs
             (fun b => parse_schema repr_str fs fuel b branch_path
                         parent_required current_file)
             (fun b => declared_properties b branch_path)).
    intros b Hin. apply list_elem_of_In in Hin.
    destruct (Hsubs b Hin) as [Hok Hsize].
    rewrite <- (declared_stable fuel b branch_path Hsize).
    by apply parse_schema_declared.
  - destruct (first_combinator_alone _ _ _ Hfirst) as [Href' Hfirst'].
    rewrite (parse_schema_combinator _ _ _ _ _ _ _ _ _ _ Href Hfirst).
    by rewrite (parse_schema_combinator _ _ _ _ _ _ _ _ _ _ Href' Hfirst').
Qed.

(** The walk of the "unknown" placeholder adds nothing. *)
Lemma parse_schema_unknown (fuel : nat) (ref path : string)
    (parent_required : json) (current_file : string) (self : visualizer) :
  parse_schema repr_str fs (S fuel) (unknown_placeholder ref) path
    parent_required current_file self = Done tt self.
Proof. reflexivity. Qed.

(** C2.  A document that declares a property by an internal reference to
    one of its own definitions: the token designates the definition in the
    document, but the walker hands the resolver the fragment that holds the
    ["$ref"] key in place of the document, so the keys are looked up in
    that fragment, where they are missing.  The resolver returns the
    "unknown" placeholder, and the walk of the document gives the row of
    the property and nothing of what the definition declares.  The
    definition is found, and walked, only when it is written inside the
    fragment that holds the ["$ref"] key. *)
Theorem internal_reference_misses_document (fuel : nat) (prop name : string)
    (definition : json) (current_file : string) (self : visualizer) :
  let ref := "#/definitions/" ++ name in
  let holder := JObj [("$ref", JStr ref)] in
  let document :=
    JObj [("type", JStr "object");
          ("properties", JObj [(prop, holder)]);
          ("definitions", JObj [(name, definition)])] in
  str_contains "/" name = false →
  AStr ref ∉ resolved_refs self →
  designates document ["definitions"; name] definition
  ∧ (∀ row_self : visualizer,
       AStr ref ∉ resolved_refs row_self →
       resolve_reference repr_str fs (JStr ref) holder current_file row_self
       = Done (JObj [("type", JStr "unknown");
                     ("description", JStr ("Unresolved reference: " ++ ref))])
           row_self)
  ∧ parse_schema repr_str fs (S (S (S fuel))) document "" (JArr [])
      current_file self
    = Done tt
        (set_properties
           (fun ps => ps ++ [mkSchemaProperty "/" prop
                               (JStr ("ref(" ++ ref ++ ")")) "0..1" (JStr "")])%list
           self)
  ∧ (∀ (at_path : string) (required : json),
       parse_schema repr_str fs (S fuel)
         (JObj [("$ref", JStr ref); ("definitions", JObj [(name, definition)])])
         at_path required current_file self
       = parse_schema repr_str fs fuel definition at_path required current_file
           self).
Proof.
  intros ref holder document Hname Hfresh.
  assert (Hres : ∀ row_self : visualizer,
             AStr ref ∉ resolved_refs row_self →
             resolve_reference repr_str fs (JStr ref) holder current_file row_self
             = Done (unknown_placeholder ref) row_self).
  { intros row_self Hrow.
    by rewrite (resolve_reference_walk repr_str fs ["definitions"; name] ref holder
                  current_file row_self eq_refl ltac:(done)
                  ltac:(by repeat constructor) Hrow). }
  split; [|split; [exact Hres|split]].
  - eapply designates_step; [reflexivity|].
    eapply designates_step; [|apply designates_here].
    cbn [dict_get]. by rewrite String.eqb_refl.
  - set (self1 := set_properties
                     (fun ps => ps ++ [mkSchemaProperty "/" prop
                                         (JStr ("ref(" ++ ref ++ ")")) "0..1"
                                         (JStr "")])%list self).
    assert (Hwalk :
              parse_schema repr_str fs (S (S (S fuel))) document "" (JArr [])
                current_file self
              = match
                  match resolve_reference repr_str fs (JStr ref) holder
                          current_file self1 with
                  | Done resolved self2 =>
                      parse_schema repr_str fs (S (S fuel)) resolved
                        ("" ++ "/" ++ prop) (JArr []) current_file self2
                  | Raised e self2 => Raised e self2
                  | OutOfFuel => OutOfFuel
                  end
                with
                | Done _ self3 => Done tt self3
                | Raised e self3 => Raised e self3
                | OutOfFuel => OutOfFuel
                end) by reflexivity.
    rewrite Hwalk, Hres by done. by rewrite parse_schema_unknown.
  - intros at_path required.
    rewrite (parse_schema_ref _ _ _ _ (JStr ref)) by reflexivity.
    rewrite (resolve_reference_walk repr_str fs ["definitions"; name] ref _
               current_file self eq_refl ltac:(done)
               ltac:(by repeat constructor) Hfresh).
    unfold walk. cbn [descend dict_get String.eqb Ascii.eqb Bool.eqb].
    by rewrite String.eqb_refl.
Qed.


End Schemas.

(** ** Concrete runs *)

(** C1.  The run on [a.json], a file whose document refers to the file
    itself, never returns: whatever fuel it is given it runs out of it.
    The token is discarded from the set of references being resolved
    before the walker recurses into the resolved document, so the test for
    a reference already being resolved never succeeds and no cycle
    placeholder is made. *)
Lemma ref_cycle_never_returns (repr_str : string → string) (fuel : nat) :
  visualize_schema repr_str fs_cycle fuel "a.json" new_visualizer = OutOfFuel.
Proof.
  unfold visualize_schema.
  set (loaded := mkVisualizer ∅ (<["a.json" := ref_cycle]> ∅) [] [Opened "a.json"]).
  assert (Hload : load_schema fs_cycle "a.json" (reset new_visualizer)
                  = Done ref_cycle loaded) by (vm_compute; reflexivity).
  assert (Hloop : ∀ path required,
            parse_schema repr_str fs_cycle fuel ref_cycle path required "a.json" loaded
            = OutOfFuel).
  { induction fuel as [|fuel IH]; intros path required; [done|].
    unfold ref_cycle at 1.
    rewrite (parse_schema_ref _ _ _ _ (JStr "a.json")) by reflexivity.
    fold ref_cycle.
    assert (Hres : resolve_reference repr_str fs_cycle (JStr "a.json") ref_cycle
                     "a.json" loaded
                   = Done ref_cycle loaded) by (vm_compute; reflexivity).
    fold ref_cycle.
    rewrite Hres. apply IH. }
  unfold mbind, method_bind, update. rewrite Hload. cbv beta iota. by rewrite Hloop.
Qed.

(** C4 as stated fails: with [items] present but empty, the signature is
    "array<any>" and not the wrapped signature of the items. *)
Lemma array_rule_counterexample : ¬ array_rule_as_claimed.
Proof.
  intros Hclaim.
  specialize (Hclaim repr_plain [("type", JStr "array"); ("items", JObj [])]
                (JObj []) "unknown" eq_refl eq_refl eq_refl).
  discriminate Hclaim.
Qed.

(** C5 as stated fails: under an array of arrays of objects the walker
    emits the row of the array property and none for the properties the
    inner objects declare. *)
Lemma nested_arrays_counterexample : ¬ one_row_per_declared_property.
Proof.
  intros Hclaim.
  specialize (Hclaim repr_plain fs_empty nested_arrays "root.json" new_visualizer
    (set_properties
       (fun ps => ps ++ [mkSchemaProperty "/" "m" (JStr "array<array<object>>")
                           "0..1 (array)" (JStr "")])%list new_visualizer)
    eq_refl).
  vm_compute in Hclaim. specialize (Hclaim eq_refl). discriminate Hclaim.
Qed.

(** C7 as stated fails: on [tuple_items] no amount of fuel makes the
    walker return, it raises. *)
Lemma tuple_items_counterexample : ¬ walker_total.
Proof.
  intros Hclaim.
  destruct (Hclaim repr_plain fs_empty tuple_items "root.json")
    as (fuel & self' & Hrun).
  destruct fuel as [|fuel]; vm_compute in Hrun; discriminate Hrun.
Qed.

(** On [tuple_items] the walker records the property and then raises,
    whatever fuel it has. *)
Lemma tuple_items_raises (fuel : nat) :
  parse_schema repr_plain fs_empty (S fuel) tuple_items "" (JArr []) "root.json"
    new_visualizer
  = Raised AttributeError
      (set_properties
         (fun ps => ps ++ [mkSchemaProperty "/" "x" (JStr "array<unknown>")
                             "0..1 (array)" (JStr "")])%list new_visualizer).
Proof. vm_compute. reflexivity. Qed.

(** The cardinality rules at a required bounded array, an optional array
    and a required scalar. *)
Lemma get_cardinality_cases_witness :
  get_cardinality repr_plain
    (JObj [("type", JStr "array"); ("minItems", JNum 2); ("maxItems", JNum 5)])
    (JArr [JStr "tags"]) "tags" = Val "2..5"
  ∧ get_cardinality repr_plain
      (JObj [("type", JStr "array"); ("minItems", JNum 1)]) (JArr [JStr "id"]) "tags"
    = Val "0..1 (array)"
  ∧ get_cardinality repr_plain (JObj [("type", JStr "string")]) (JArr [JStr "id"]) "id"
    = Val "1..1".
Proof.
  split; [|split].
  - destruct (get_cardinality_cases repr_plain
                [("type", JStr "array"); ("minItems", JNum 2); ("maxItems", JNum 5)]
                [JStr "tags"] "tags") as [_ Harray].
    destruct (Harray eq_refl) as [_ Hrequired].
    assert (Hin : JStr "tags" ∈ [JStr "tags"]) by (apply list_elem_of_here).
    destruct (Hrequired Hin (pretty 5%Z)
                (or_intror (ex_intro _ 5%Z (conj eq_refl eq_refl))))
      as [Hpositive _].
    apply (Hpositive 2%Z eq_refl). lia.
  - destruct (get_cardinality_cases repr_plain
                [("type", JStr "array"); ("minItems", JNum 1)]
                [JStr "id"] "tags") as [_ Harray].
    destruct (Harray eq_refl) as [Hoptional _].
    apply Hoptional. intros Hin. apply list_elem_of_singleton in Hin.
    discriminate Hin.
  - destruct (get_cardinality_cases repr_plain [("type", JStr "string")]
                [JStr "id"] "id") as [Hscalar _].
    assert (Hty : dict_get "type" [("type", JStr "string")] ≠ Some (JStr "array"))
      by discriminate.
    destruct (Hscalar Hty) as [Hrequired _].
    apply Hrequired. apply list_elem_of_here.
Defined.

(** The signature rules at an array of strings, an array with empty items
    and a short enum. *)
Lemma get_type_string_rules_witness :
  get_type_string repr_plain
    (JObj [("type", JStr "array"); ("items", JObj [("type", JStr "string")])])
  = Val (JStr "array<string>")
  ∧ get_type_string repr_plain (JObj [("type", JStr "array"); ("items", JObj [])])
    = Val (JStr "array<any>")
  ∧ get_type_string repr_plain (JObj [("enum", JArr [JStr "a"; JStr "b"])])
    = Val (JStr "enum(a, b)").
Proof.
  split; [|split].
  - destruct (get_type_string_rules repr_plain
                [("type", JStr "array"); ("items", JObj [("type", JStr "string")])])
      as (_ & Harray & _).
    destruct (Harray eq_refl) as [Hitems _].
    apply (Hitems (JObj [("type", JStr "string")]) (JStr "string"));
      reflexivity.
  - destruct (get_type_string_rules repr_plain
                [("type", JStr "array"); ("items", JObj [])])
      as (_ & Harray & _).
    destruct (Harray eq_refl) as [_ Hempty].
    apply Hempty. right. exists (JObj []). split; reflexivity.
  - destruct (get_type_string_rules repr_plain [("enum", JArr [JStr "a"; JStr "b"])])
      as (_ & _ & _ & _ & Huntyped).
    destruct (Huntyped eq_refl) as [Henum _].
    destruct (Henum [JStr "a"; JStr "b"] eq_refl) as [Hshort _].
    apply Hshort. simpl. lia.
Defined.

(** [id_and_tags] gives the rows of [id] and [tags], in that order. *)
Lemma parse_schema_declared_properties_witness :
  ∃ new : list SchemaProperty,
    parse_schema repr_plain fs_empty 12 id_and_tags "" (JArr []) "root.json"
      new_visualizer
    = Done tt (set_properties (fun ps => ps ++ new)%list new_visualizer)
    ∧ map row_key new = [("/", "id"); ("/", "tags")].
Proof.
  apply (parse_schema_declared_properties repr_plain fs_empty 12 id_and_tags ""
           (JArr []) "root.json" new_visualizer eq_refl).
  vm_compute. lia.
Defined.

(** [one_of_scalars] is walked to the end. *)
Lemma parse_schema_total_witness :
  ∃ new : list SchemaProperty,
    parse_schema repr_plain fs_empty 6 one_of_scalars "" (JArr []) "root.json"
      new_visualizer
    = Done tt (set_properties (fun ps => ps ++ new)%list new_visualizer).
Proof.
  apply (parse_schema_total repr_plain fs_empty 6 one_of_scalars ""
           (JArr []) "root.json" new_visualizer eq_refl).
  vm_compute. lia.
Defined.

(** A number under ["$ref"], and a reference to a file behind a loop of
    links: the resolver raises, and the visualizer is as it was. *)
Lemma resolve_reference_releases_witness :
  resolve_reference repr_plain fs_loop (JNum 5) (JObj []) "root.json"
    new_visualizer
  = Raised AttributeError new_visualizer
  ∧ resolve_reference repr_plain fs_loop (JStr "loop.json") (JObj []) "root.json"
      new_visualizer
    = Raised RuntimeError new_visualizer.
Proof.
  split.
  - apply (proj1 (proj2 (resolve_reference_releases repr_plain fs_loop (JNum 5)
                           (JObj []) "root.json" new_visualizer))
             (AInt 5) eq_refl); [apply not_elem_of_empty|].
    intros token. discriminate.
  - apply (proj2 (proj2 (resolve_reference_releases repr_plain fs_loop
                           (JStr "loop.json") (JObj []) "root.json"
                           new_visualizer))
             "loop.json" RuntimeError eq_refl);
      [apply not_elem_of_empty|reflexivity..].
Defined.

(** [nested_reference]: the token designates the definition [Name] in
    the document, and the walk gives the row of [name] alone. *)
Lemma internal_reference_misses_document_witness :
  designates nested_reference ["definitions"; "Name"]
    (JObj [("type", JStr "object");
           ("properties", JObj [("first", JObj [("type", JStr "string")])])])
  ∧ parse_schema repr_plain fs_empty 3 nested_reference "" (JArr []) "root.json"
      new_visualizer
    = Done tt
        (set_properties
           (fun ps => ps ++ [mkSchemaProperty "/" "name"
                               (JStr "ref(#/definitions/Name)") "0..1" (JStr "")])%list
           new_visualizer).
Proof.
  destruct (internal_reference_misses_document repr_plain fs_empty 0 "name" "Name"
              (JObj [("type", JStr "object");
                     ("properties",
                      JObj [("first", JObj [("type", JStr "string")])])])
              "root.json" new_visualizer eq_refl ltac:(apply not_elem_of_empty))
    as (Hdesignates & _ & Hwalk & _).
  split; [exact Hdesignates | exact Hwalk].
Defined.


(** [two_combinators]: the row of the [allOf] branch and none of the
    [anyOf] branch, which is written first. *)
Lemma first_combinator_only_witness :
  ∃ new : list SchemaProperty,
    parse_schema repr_plain fs_empty 5 two_combinators "" (JArr []) "root.json"
      new_visualizer
    = Done tt (set_properties (fun ps => ps ++ new)%list new_visualizer)
    ∧ map row_key new = [("/", "b")].
Proof.
  apply (proj1 (first_combinator_only repr_plain fs_empty 4
                  [("anyOf", JArr [JObj [("properties",
                                          JObj [("a", JObj [("type", JStr "string")])])]]);
                   ("allOf", JArr [JObj [("properties",
                                          JObj [("b", JObj [("type", JStr "integer")])])]])]
                  "allOf" _ "" (JArr []) "root.json" new_visualizer
                  eq_refl eq_refl)
           [JObj [("properties", JObj [("b", JObj [("type", JStr "integer")])])]]
           "" eq_refl (or_introl (conj eq_refl eq_refl))).
  repeat constructor.
Defined.

(** * Further properties of the visualizer *)

(** ** Prefixes of paths *)

Lemma prefix_refl (s : string) : String.prefix s s = true.
Proof.
  induction s as [|a s IH]; [done|]. by rewrite prefix_cons, Ascii.eqb_refl.
Qed.

Lemma prefix_empty (s : string) : String.prefix "" s = true.
Proof. by destruct s. Qed.

Lemma prefix_trans (s t u : string) :
  String.prefix s t = true → String.prefix t u = true → String.prefix s u = true.
Proof.
  revert t u. induction s as [|a s IH]; intros t u Hst Htu.
  { apply prefix_empty. }
  destruct t as [|b t]; [done|]. destruct u as [|c u]; [done|].
  rewrite prefix_cons in *.
  destruct (Ascii.eqb_spec a b) as [->|]; [|done].
  destruct (Ascii.eqb b c); [|done]. by eapply IH.
Qed.

Lemma prefix_app_r (s t u : string) :
  String.prefix s t = true → String.prefix s (t ++ u) = true.
Proof. intros Hst. eapply prefix_trans; [done|]. apply prefix_app. Qed.

Lemma prefix_shown (path : string) : String.prefix path (shown path) = true.
Proof.
  unfold shown. destruct (String.eqb_spec path "") as [->|]; [done|].
  apply prefix_refl.
Qed.

Lemma prefix_sub_path (key path : string) :
  String.prefix path (sub_path key path) = true.
Proof.
  unfold sub_path.
  repeat (destruct (String.eqb key _); [apply prefix_refl || apply prefix_app|]).
  apply prefix_refl.
Qed.

(** ** Methods that keep a relation *)

Section Keeps.

Variable R : visualizer → visualizer → Prop.
Hypothesis R_refl : ∀ self, R self self.
Hypothesis R_trans : ∀ self1 self2 self3, R self1 self2 → R self2 self3 → R self1 self3.

Lemma keeps_lift {A : Type} (r : res A) : keeps R (lift r).
Proof. intros self self'. destruct r; cbn; by intros [= <-]. Qed.

Lemma keeps_ret {A : Type} (a : A) : keeps R (mret a).
Proof. intros self self'. cbn. by intros [= <-]. Qed.

Lemma keeps_bind {A B : Type} (m : method A) (k : A → method B) :
  keeps R m → (∀ a, keeps R (k a)) → keeps R (m ≫= k).
Proof.
  intros Hm Hk self self'. unfold mbind, method_bind.
  specialize (Hm self). destruct (m self) as [a self1|e self1|]; cbn in *.
  - intros Hfinal. eapply R_trans; [by apply Hm|]. by eapply Hk.
  - intros [= <-]. by apply Hm.
  - done.
Qed.

Lemma keeps_for_each {A : Type} (xs : list A) (body : A → method unit) :
  (∀ x, keeps R (body x)) → keeps R (for_each xs body).
Proof.
  intros Hbody. induction xs as [|x xs IH]; cbn [for_each].
  - apply keeps_ret.
  - apply keeps_bind; [apply Hbody | by intros _].
Qed.

End Keeps.

(** ** What a walk leaves of the visualizer *)

Section Invariant.

Variable repr_str : string → string.
Variable fs : FileSystem.

Lemma parses_of_app (key : string) (events events' : list event) :
  parses_of fs key (events ++ events')
  = (parses_of fs key events + parses_of fs key events')%nat.
Proof. unfold parses_of. by rewrite List.filter_app, List.length_app. Qed.

Lemma parses_none (self self' : visualizer) (events : list event) :
  (∀ key, parses_of fs key events = 0%nat) →
  ∀ key : string,
    (parses_of fs key events ≤ 1)%nat
    ∧ (is_Some (schema_cache self !! key) → parses_of fs key events = 0%nat)
    ∧ (schema_cache self' !! key = None → parses_of fs key events = 0%nat).
Proof. intros Hnone key. rewrite Hnone. split; [lia|]. by split. Qed.

Lemma extends_from_refl (path : string) (self : visualizer) :
  extends_from fs path self self.
Proof.
  split; [done|]. split; [done|]. split; [done|]. split.
  - exists []. split; [by rewrite app_nil_r|]. by apply parses_none.
  - exists []. by rewrite app_nil_r.
Qed.

Lemma extends_from_trans (path : string) (self1 self2 self3 : visualizer) :
  extends_from fs path self1 self2 → extends_from fs path self2 self3 →
  extends_from fs path self1 self3.
Proof.
  intros (Hr & Hc & Hs & (ev & Ht & Ho) & new & Hp & Hn)
         (Hr' & Hc' & Hs' & (ev' & Ht' & Ho') & new' & Hp' & Hn').
  split; [congruence|]. split; [by etrans|]. split; [by auto|]. split.
  - exists (ev ++ ev')%list. split; [by rewrite Ht', Ht, app_assoc|].
    intros key. rewrite parses_of_app.
    destruct (Ho key) as (Hone & Hbefore & Hafter).
    destruct (Ho' key) as (Hone' & Hbefore' & Hafter').
    assert (Hmid : is_Some (schema_cache self2 !! key)
                   ∨ schema_cache self2 !! key = None)
      by (destruct (schema_cache self2 !! key); by eauto).
    split; [|split].
    + destruct Hmid as [Hmid|Hmid];
        [rewrite (Hbefore' Hmid) | rewrite (Hafter Hmid)]; lia.
    + intros [doc Hin]. rewrite Hbefore by by eexists.
      rewrite Hbefore'; [done|]. exists doc. by eapply lookup_weaken.
    + intros Hout. rewrite (Hafter' Hout).
      rewrite Hafter; [done|].
      destruct (schema_cache self2 !! key) as [doc|] eqn:Hin; [|done].
      by rewrite (lookup_weaken _ _ _ _ Hin Hc') in Hout.
  - exists (new ++ new')%list. split; [by rewrite Hp', Hp, app_assoc|].
    by apply Forall_app.
Qed.

Lemma extends_from_weaken (path path' : string) (self self' : visualizer) :
  String.prefix path path' = true →
  extends_from fs path' self self' → extends_from fs path self self'.
Proof.
  intros Hpre (Hr & Hc & Hs & Ht & new & Hp & Hn).
  repeat (split; [done|]). exists new. split; [done|].
  eapply Forall_impl; [done|]. intros r Hrow. by eapply prefix_trans.
Qed.

Lemma keeps_weaken {A : Type} (path path' : string) (m : method A) :
  String.prefix path path' = true →
  keeps (extends_from fs path') m → keeps (extends_from fs path) m.
Proof. intros Hpre Hm self self' Hf. eapply extends_from_weaken; eauto. Qed.

Lemma load_schema_keeps (path file_path : string) :
  keeps (extends_from fs path) (load_schema fs file_path).
Proof.
  intros self self'.
  destruct (fs_read fs (fs_locate fs file_path)) as [e| |err|doc] eqn:Hread.
  { rewrite (load_schema_unresolvable fs _ e) by done. cbn. intros [= <-].
    apply extends_from_refl. }
  all: rewrite load_schema_resolved by (intros e; rewrite Hread; discriminate).
  all: destruct (schema_cache self !! _) as [cached|] eqn:Hc;
    [by cbn; intros [= <-]; apply extends_from_refl|].
  all: rewrite Hread; cbn; intros [= <-].
  - split; [done|]. split; [done|]. split; [done|]. split.
    + eexists [_]. split; [done|]. by apply parses_none.
    + exists []. by rewrite app_nil_r.
  - split; [done|]. split; [done|]. split; [done|]. split.
    + eexists [_; _]. split; [by cbn; rewrite <- app_assoc|].
      apply parses_none. intros key. unfold parses_of. cbn. by rewrite Hread.
    + exists []. by rewrite app_nil_r.
  - split; [done|]. split; [by apply insert_subseteq|]. split.
    { intros Hsound key doc'. cbn.
      destruct (decide (fs_resolve fs (fs_locate fs file_path) = key)) as [<-|Hne].
      - rewrite lookup_insert_eq. intros [= <-]. by eauto.
      - rewrite lookup_insert_ne by done. apply Hsound. }
    split; [|exists []; by rewrite app_nil_r].
    eexists [_]. split; [done|].
    intros key. unfold parses_of. cbn. rewrite Hread.
    destruct (String.eqb_spec (fs_resolve fs (fs_locate fs file_path)) key)
      as [<-|Hne]; cbn.
    + split; [done|]. split.
      * rewrite Hc. by intros [? ?].
      * by rewrite lookup_insert_eq.
    + split; [lia|]. by split.
Qed.

Lemma set_resolved_refs_extends (path : string) (f g : gset atom → gset atom)
    (self self' : visualizer) :
  extends_from fs path (set_resolved_refs f self) self' →
  g (resolved_refs self') = resolved_refs self →
  extends_from fs path self (set_resolved_refs g self').
Proof.
  intros (Hr & Hc & Hs & Ht & Hp) Hg.
  destruct self, self'. unfold set_resolved_refs in *. cbn in *.
  repeat split; done.
Qed.

Lemma resolve_reference_keeps (path : string) (ref current_schema : json)
    (current_path : string) :
  keeps (extends_from fs path)
    (resolve_reference repr_str fs ref current_schema current_path).
Proof.
  intros self self'. unfold resolve_reference.
  destruct (py_hash ref) as [key|e];
    [|by cbn; intros [= <-]; apply extends_from_refl].
  rewrite bind_lift_val. case_bool_decide as Hin.
  { cbn. intros [= <-]. apply extends_from_refl. }
  unfold try_finally.
  assert (Hbody : keeps (extends_from fs path)
                    (resolve_body fs ref current_schema current_path)).
  { unfold resolve_body.
    apply (keeps_bind _ (extends_from_trans path));
      [apply keeps_lift; apply extends_from_refl | intros token].
    destruct (String.prefix "#/" token);
      [apply keeps_ret; apply extends_from_refl|].
    destruct (String.prefix "http" token);
      [apply keeps_ret; apply extends_from_refl|].
    destruct (str_split_once "#/" token) as [[file_part fragment]|].
    - apply (keeps_bind _ (extends_from_trans path));
        [apply load_schema_keeps
        | intros doc; apply keeps_ret; apply extends_from_refl].
    - apply load_schema_keeps. }
  specialize (Hbody (set_resolved_refs (λ refs, refs ∪ {[key]}) self)).
  destruct (resolve_body fs ref current_schema current_path _)
    as [frag self1|e self1|]; cbn in *; [| |done].
  - intros [= <-]. eapply set_resolved_refs_extends; [by apply Hbody|].
    destruct (Hbody self1 eq_refl) as [-> _]. cbn. by apply add_discard.
  - intros [= <-]. eapply set_resolved_refs_extends; [by apply Hbody|].
    destruct (Hbody self1 eq_refl) as [-> _]. cbn. by apply add_discard.
Qed.

Lemma record_keeps (path prop_name : string) (prop_schema required : json) :
  keeps (extends_from fs path) (record repr_str path prop_name prop_schema required).
Proof.
  unfold record.
  repeat (apply (keeps_bind _ (extends_from_trans path));
            [apply keeps_lift; apply extends_from_refl | intros ?]).
  intros self self'. cbn. intros [= <-].
  split; [done|]. split; [done|]. split; [done|]. split.
  - exists []. split; [by rewrite app_nil_r|]. by apply parses_none.
  - eexists [_]. split; [done|]. constructor; [|done]. cbn.
    apply prefix_shown.
Qed.

End Invariant.

Section WalkInvariant.

Variable repr_str : string → string.
Variable fs : FileSystem.
Variable current_file : string.

Local Ltac keeps_step path :=
  first
    [ apply (keeps_bind _ (extends_from_trans fs path));
        [apply keeps_lift; apply extends_from_refl | intros ?]
    | apply keeps_ret; apply extends_from_refl ].

Section KeepsStep.

Variable visit : json → string → json → method unit.
Variable path : string.

(** The recursive calls keep the relation at the path they are given. *)
Hypothesis visit_keeps :
  ∀ (sub : json) (path' : string) (required : json),
    String.prefix path path' = true →
    keeps (extends_from fs path) (visit sub path' required).

Lemma follow_ref_keeps (holder : json) (path' : string) (required : json) :
  String.prefix path path' = true →
  keeps (extends_from fs path) (follow_ref repr_str fs current_file visit holder path' required).
Proof.
  intros Hpre. unfold follow_ref. keeps_step path.
  apply (keeps_bind _ (extends_from_trans fs path));
    [apply resolve_reference_keeps | intros resolved; by apply visit_keeps].
Qed.

Lemma visit_property_keeps (required : json) (item : string * json) :
  keeps (extends_from fs path)
        (visit_property repr_str fs current_file visit path required item).
Proof.
  unfold visit_property. cbv zeta.
  assert (Hprop : String.prefix path (path ++ "/" ++ fst item) = true)
    by apply prefix_app.
  assert (Hitems : String.prefix path ((path ++ "/" ++ fst item) ++ "[]") = true)
    by by apply prefix_app_r.
  apply (keeps_bind _ (extends_from_trans fs path)); [apply record_keeps|intros _].
  keeps_step path. destruct a; [by apply visit_keeps|].
  keeps_step path. destruct a.
  - keeps_step path. keeps_step path. destruct a0; [by apply visit_keeps|].
    keeps_step path. destruct a0; [by apply follow_ref_keeps|keeps_step path].
  - keeps_step path. destruct a; [by apply follow_ref_keeps|keeps_step path].
Qed.

Lemma visit_plain_keeps (schema : json) :
  keeps (extends_from fs path)
        (visit_plain repr_str fs current_file visit schema path).
Proof.
  unfold visit_plain. keeps_step path. destruct a.
  - do 3 keeps_step path.
    apply keeps_for_each;
      [apply extends_from_refl | apply extends_from_trans
      | intros item; apply visit_property_keeps].
  - keeps_step path. destruct a; [|keeps_step path].
    do 2 keeps_step path. destruct a0; [|keeps_step path].
    apply visit_keeps.
    destruct (String.eqb path "") eqn:Hroot; cbn [negb]; [|apply prefix_app].
    apply String.eqb_eq in Hroot. by rewrite Hroot.
Qed.

Lemma visit_combinators_keeps (keys : list string) (schema : json)
    (parent_required : json) :
  keeps (extends_from fs path)
        (visit_combinators repr_str fs current_file visit keys schema path
           parent_required).
Proof.
  induction keys as [|key keys IH]; cbn [visit_combinators].
  - apply visit_plain_keeps.
  - keeps_step path. destruct a; [|done].
    do 2 keeps_step path.
    apply keeps_for_each;
      [apply extends_from_refl | apply extends_from_trans |].
    intros sub. apply visit_keeps, prefix_sub_path.
Qed.

Lemma parse_step_keeps (schema : json) (parent_required : json) :
  keeps (extends_from fs path)
        (parse_step repr_str fs current_file visit schema path parent_required).
Proof.
  unfold parse_step. keeps_step path. destruct a.
  - apply follow_ref_keeps, prefix_refl.
  - apply visit_combinators_keeps.
Qed.

End KeepsStep.

Lemma parse_schema_keeps (fuel : nat) (schema : json) (path : string)
    (parent_required : json) :
  keeps (extends_from fs path)
        (parse_schema repr_str fs fuel schema path parent_required current_file).
Proof.
  revert schema path parent_required.
  induction fuel as [|fuel IH]; intros schema path parent_required.
  { intros self self'. cbn. done. }
  cbn [parse_schema]. apply parse_step_keeps.
  intros sub path' required Hpre. eapply keeps_weaken; [done|]. apply IH.
Qed.

End WalkInvariant.

(** ** Walks that end *)

Lemma returns_lift {A : Type} (r : res A) : returns (lift r).
Proof. intros self. by destruct r. Qed.

Lemma returns_ret {A : Type} (a : A) : returns (mret a).
Proof. by intros self. Qed.

Lemma returns_bind {A B : Type} (m : method A) (k : A → method B)
    (Q : A → Prop) :
  returns m →
  (∀ self a self', m self = Done a self' → Q a) →
  (∀ a, Q a → returns (k a)) →
  returns (m ≫= k).
Proof.
  intros Hm HQ Hk self. unfold mbind, method_bind.
  specialize (Hm self). specialize (HQ self).
  destruct (m self) as [a self'|e self'|]; [|done|done].
  apply Hk. by eapply HQ.
Qed.

Lemma returns_bind_lift {A B : Type} (r : res A) (k : A → method B) :
  (∀ a, r = Val a → returns (k a)) → returns (lift r ≫= k).
Proof.
  intros Hk. apply (returns_bind _ _ (fun a => r = Val a));
    [apply returns_lift| |done].
  intros self a self'. destruct r; cbn; [by intros [= -> _]|done].
Qed.

Lemma returns_for_each {A : Type} (xs : list A) (body : A → method unit) :
  (∀ x, In x xs → returns (body x)) → returns (for_each xs body).
Proof.
  induction xs as [|x xs IH]; intros Hbody; cbn [for_each].
  - apply returns_ret.
  - apply (returns_bind _ _ (fun _ => True));
      [apply Hbody; by left | done |].
    intros _ _. apply IH. intros y Hy. apply Hbody. by right.
Qed.

Lemma local_refs_get (k : string) (kvs : list (string * json)) (v : json) :
  local_refs (JObj kvs) = true → dict_get k kvs = Some v → local_refs v = true.
Proof.
  cbn [local_refs]. intros [_ Hall]%andb_true_iff Hget.
  rewrite forallb_forall in Hall. by apply (Hall (k, v)), dict_get_In.
Qed.

Lemma descend_sub (parts : list string) (v frag : json) :
  descend parts v = Some frag →
  (json_size frag ≤ json_size v)%nat
  ∧ (parts ≠ [] → (json_size frag < json_size v)%nat)
  ∧ (local_refs v = true → local_refs frag = true).
Proof.
  revert v. induction parts as [|part parts IH]; intros v; cbn [descend].
  { intros [= <-]. by repeat split. }
  destruct v as [| | | | |kvs]; try done.
  destruct (dict_get part kvs) as [w|] eqn:Hget; [|done].
  intros Hd. destruct (IH w Hd) as (Hle & _ & Hloc).
  pose proof (json_size_get _ _ _ Hget).
  repeat split; [lia|lia|]. intros Hv. apply Hloc. by eapply local_refs_get.
Qed.

Lemma py_getitem_sub (c : json) (k : string) (v : json) :
  py_getitem c k = Val v →
  (json_size v < json_size c)%nat ∧ (local_refs c = true → local_refs v = true).
Proof.
  destruct c as [| | | | |kvs]; try done. cbn [py_getitem].
  destruct (dict_get k kvs) as [w|] eqn:Hget; [|done]. intros [= <-].
  split; [by eapply json_size_get | intros Hc; by eapply local_refs_get].
Qed.

Lemma py_items_sub (c : json) (items : list (string * json)) :
  py_items c = Val items →
  ∀ item, In item items →
    (json_size (snd item) < json_size c)%nat
    ∧ (local_refs c = true → local_refs (snd item) = true).
Proof.
  destruct c as [| | | | |kvs]; try done. intros [= <-] item Hin.
  split; [by apply json_size_prop|].
  cbn [local_refs]. intros [_ Hall]%andb_true_iff.
  rewrite forallb_forall in Hall. by apply Hall.
Qed.

Lemma py_iter_sub (c : json) (subs : list json) :
  py_iter c = Val subs →
  ∀ sub, In sub subs →
    (json_size sub ≤ json_size c)%nat
    ∧ (local_refs c = true → local_refs sub = true).
Proof.
  destruct c as [| | |s|xs|kvs]; try done; intros [= <-] sub Hin.
  - unfold chars in Hin. apply in_map_iff in Hin as (a & <- & _). done.
  - split; [pose proof (json_size_elem _ _ Hin); lia|].
    cbn [local_refs]. rewrite forallb_forall. intros Hall. by apply Hall.
  - apply in_map_iff in Hin as (kv & <- & Hkv). split; [|done].
    pose proof (json_size_prop _ _ Hkv). pose proof (json_size_pos (snd kv)).
    cbn [json_size] in *. lia.
Qed.

Lemma py_get_sub (c : json) (k : string) (default v : json) :
  py_get c k default = Val v →
  v = default
  ∨ (json_size v < json_size c)%nat ∧ (local_refs c = true → local_refs v = true).
Proof.
  destruct c as [| | | | |kvs]; try done. cbn [py_get].
  destruct (dict_get k kvs) as [w|] eqn:Hget; intros [= <-]; [right|by left].
  split; [by eapply json_size_get | intros Hc; by eapply local_refs_get].
Qed.

Section Ending.

Variable repr_str : string → string.
Variable fs : FileSystem.
Variable current_file : string.

Lemma load_schema_returns (file_path : string) : returns (load_schema fs file_path).
Proof.
  intros self.
  destruct (load_schema_frame fs file_path self) as (self' & Hfinal & _).
  by destruct (load_schema fs file_path self).
Qed.

Lemma resolve_reference_returns (ref holder : json) (current_path : string) :
  returns (resolve_reference repr_str fs ref holder current_path).
Proof.
  intros self.
  destruct (resolve_reference_frame repr_str fs ref holder current_path self)
    as (self' & Hfinal & _).
  by destruct (resolve_reference repr_str fs ref holder current_path self).
Qed.

(** What a token that is internal or remote resolves to: a placeholder or
    a fragment strictly inside the fragment that holds the token. *)
Lemma resolve_reference_local (ref holder : json) (current_path : string)
    (self self' : visualizer) (frag : json) :
  (∀ r, ref = JStr r → String.prefix "#/" r || String.prefix "http" r = true) →
  resolve_reference repr_str fs ref holder current_path self = Done frag self' →
  is_placeholder frag
  ∨ (json_size frag < json_size holder)%nat
    ∧ (local_refs holder = true → local_refs frag = true).
Proof.
  intros Hlocal. unfold resolve_reference.
  destruct (py_hash ref) as [key|e] eqn:Hhash; [|done].
  rewrite bind_lift_val. case_bool_decide.
  { intros [= <- _]. left. exists (py_str repr_str ref). by left. }
  unfold try_finally.
  destruct ref as [| | |ref| |]; try done.
  specialize (Hlocal ref eq_refl). rewrite resolve_body_str.
  destruct (String.prefix "#/" ref).
  - cbn [mret method_ret]. intros [= <- _]. unfold walk.
    destruct (descend _ holder) as [found|] eqn:Hd.
    + right. destruct (descend_sub _ _ _ Hd) as (_ & Hlt & Hloc).
      split; [|done]. apply Hlt, str_split_nonempty.
    + left. exists ref. right. by left.
  - cbn in Hlocal. rewrite Hlocal. cbn [mret method_ret].
    intros [= <- _]. left. exists ref. right. by right.
Qed.

Lemma record_returns (path prop_name : string) (prop_schema required : json) :
  returns (record repr_str path prop_name prop_schema required).
Proof.
  unfold record.
  repeat (apply returns_bind_lift; intros ? _).
  by intros self.
Qed.

Section EndingStep.

Variable visit : json → string → json → method unit.
Variable top : json.

Hypothesis visit_inside :
  ∀ (sub : json) (path : string) (required : json),
    local_refs sub = true → (json_size sub < json_size top)%nat →
    returns (visit sub path required).

Hypothesis visit_placeholder :
  (2 ≤ json_size top)%nat →
  ∀ (sub : json) (path : string) (required : json),
    is_placeholder sub → returns (visit sub path required).

Lemma follow_ref_returns (holder : json) (path : string) (required : json) :
  local_refs holder = true → (json_size holder ≤ json_size top)%nat →
  returns (follow_ref repr_str fs current_file visit holder path required).
Proof.
  intros Hlocal Hsize. unfold follow_ref.
  apply returns_bind_lift. intros ref Href.
  destruct holder as [| | | | |kvs]; try done. cbn [py_getitem] in Href.
  destruct (dict_get "$ref" kvs) as [ref'|] eqn:Hget; [|done].
  injection Href as ->.
  pose proof (json_size_get _ _ _ Hget) as Hlt.
  pose proof (json_size_pos ref) as Hpos.
  apply (returns_bind _ _
           (fun frag => is_placeholder frag
                        ∨ (json_size frag < json_size (JObj kvs))%nat
                          ∧ local_refs frag = true)).
  - apply resolve_reference_returns.
  - intros self frag self' Hres.
    destruct (resolve_reference_local ref (JObj kvs) current_file self self' frag)
      as [Hp|[Hs Hl]]; [|done|by left|right; by auto].
    intros r ->. cbn [local_refs] in Hlocal. rewrite Hget in Hlocal.
    by apply andb_true_iff in Hlocal as [? _].
  - intros frag [Hp|[Hs Hl]].
    + apply visit_placeholder; [lia|done].
    + apply visit_inside; [done|lia].
Qed.

Lemma visit_property_returns (path : string) (required : json)
    (item : string * json) :
  local_refs (snd item) = true → (json_size (snd item) < json_size top)%nat →
  returns (visit_property repr_str fs current_file visit path required item).
Proof.
  intros Hlocal Hsize. unfold visit_property. cbv zeta.
  apply (returns_bind _ _ (fun _ => True)); [apply record_returns|done|intros _ _].
  apply returns_bind_lift. intros nested _.
  destruct nested; [by apply visit_inside|].
  apply returns_bind_lift. intros is_array _.
  destruct is_array.
  - apply returns_bind_lift. intros items_schema Hitems.
    destruct (py_getitem_sub _ _ _ Hitems) as [Hlt Hloc].
    apply returns_bind_lift. intros nested_items _.
    destruct nested_items; [apply visit_inside; [by auto|lia]|].
    apply returns_bind_lift. intros items_ref _.
    destruct items_ref; [|apply returns_ret].
    apply follow_ref_returns; [by auto|lia].
  - apply returns_bind_lift. intros prop_ref _.
    destruct prop_ref; [|apply returns_ret].
    apply follow_ref_returns; [done|lia].
Qed.

Hypothesis top_local : local_refs top = true.

Lemma visit_plain_returns (path : string) :
  returns (visit_plain repr_str fs current_file visit top path).
Proof.
  unfold visit_plain.
  apply returns_bind_lift. intros is_object _. destruct is_object.
  - apply returns_bind_lift. intros props Hprops.
    apply returns_bind_lift. intros required _.
    apply returns_bind_lift. intros items Hitems.
    apply returns_for_each. intros item Hin.
    destruct (py_items_sub _ _ Hitems item Hin) as [Hlt Hloc].
    destruct (py_get_sub _ _ _ _ Hprops) as [->|[Hps Hpl]].
    { injection Hitems as <-. done. }
    apply visit_property_returns; [by auto|lia].
  - apply returns_bind_lift. intros is_array _.
    destruct is_array; [|apply returns_ret].
    apply returns_bind_lift. intros items_schema Hitems.
    destruct (py_getitem_sub _ _ _ Hitems) as [Hlt Hloc].
    apply returns_bind_lift. intros nested_items _.
    destruct nested_items; [|apply returns_ret].
    apply visit_inside; by auto.
Qed.

Lemma visit_combinators_returns (keys : list string) (path : string)
    (parent_required : json) :
  returns (visit_combinators repr_str fs current_file visit keys top path
             parent_required).
Proof.
  induction keys as [|key keys IH]; cbn [visit_combinators].
  { apply visit_plain_returns. }
  apply returns_bind_lift. intros present _. destruct present; [|done].
  apply returns_bind_lift. intros branches Hbranches.
  destruct (py_getitem_sub _ _ _ Hbranches) as [Hlt Hloc].
  apply returns_bind_lift. intros subs Hsubs.
  apply returns_for_each. intros sub Hin.
  destruct (py_iter_sub _ _ Hsubs sub Hin) as [Hle Hsl].
  apply visit_inside; [by auto|lia].
Qed.

Lemma parse_step_returns (path : string) (parent_required : json) :
  returns (parse_step repr_str fs current_file visit top path parent_required).
Proof.
  unfold parse_step.
  apply returns_bind_lift. intros has_ref _. destruct has_ref.
  - by apply follow_ref_returns.
  - apply visit_combinators_returns.
Qed.

End EndingStep.

Lemma parse_schema_placeholder (fuel : nat) (placeholder : json) (path : string)
    (parent_required : json) (self : visualizer) :
  is_placeholder placeholder →
  parse_schema repr_str fs (S fuel) placeholder path parent_required current_file
    self = Done tt self.
Proof.
  intros [ref [-> | [-> | ->]]]; cbn; [|done|done].
  by destruct self.
Qed.

Lemma parse_schema_returns (fuel : nat) (schema : json) (path : string)
    (parent_required : json) :
  local_refs schema = true → (json_size schema ≤ fuel)%nat →
  returns (parse_schema repr_str fs fuel schema path parent_required current_file).
Proof.
  revert schema path parent_required.
  induction fuel as [|fuel IH]; intros schema path parent_required Hlocal Hsize.
  { pose proof (json_size_pos schema). lia. }
  cbn [parse_schema]. apply parse_step_returns; [| |done].
  - intros sub path' required Hsub Hlt. apply IH; [done|lia].
  - intros Htwo sub path' required Hp self.
    destruct fuel as [|fuel]; [lia|]. by rewrite parse_schema_placeholder.
Qed.

End Ending.

(** ** The required list handed to the walker *)

Lemma bind_ext {A B : Type} (m : method A) (k k' : A → method B)
    (self : visualizer) :
  (∀ a self', k a self' = k' a self') → (m ≫= k) self = (m ≫= k') self.
Proof.
  intros Hk. unfold mbind, method_bind. by destruct (m self).
Qed.

Lemma for_each_ext {A : Type} (xs : list A) (body body' : A → method unit)
    (self : visualizer) :
  (∀ x self', body x self' = body' x self') →
  for_each xs body self = for_each xs body' self.
Proof.
  intros Hbody. revert self. induction xs as [|x xs IH]; intros self; [done|].
  cbn [for_each]. unfold mbind, method_bind. rewrite Hbody.
  by destruct (body' x self).
Qed.

Section Required.

Variable repr_str : string → string.
Variable fs : FileSystem.
Variable current_file : string.

Lemma parse_step_required (visit visit' : json → string → json → method unit)
    (schema : json) (path : string) (required required' : json)
    (self : visualizer) :
  (∀ sub path' r r' self', visit sub path' r self' = visit' sub path' r' self') →
  parse_step repr_str fs current_file visit schema path required self
  = parse_step repr_str fs current_file visit' schema path required' self.
Proof.
  intros Hvisit.
  assert (Hfollow : ∀ holder path' r r' self',
             follow_ref repr_str fs current_file visit holder path' r self'
             = follow_ref repr_str fs current_file visit' holder path' r' self').
  { intros holder path' r r' self'. unfold follow_ref.
    apply bind_ext. intros ref self1. apply bind_ext. intros resolved self2.
    apply Hvisit. }
  assert (Hprop : ∀ path' req item self',
             visit_property repr_str fs current_file visit path' req item self'
             = visit_property repr_str fs current_file visit' path' req item self').
  { intros path' req item self'. unfold visit_property. cbv zeta.
    apply bind_ext. intros _ self1. apply bind_ext. intros nested self2.
    destruct nested; [apply Hvisit|].
    apply bind_ext. intros is_array self3. destruct is_array.
    - apply bind_ext. intros items_schema self4.
      apply bind_ext. intros nested_items self5.
      destruct nested_items; [apply Hvisit|].
      apply bind_ext. intros items_ref self6.
      destruct items_ref; [apply Hfollow|done].
    - apply bind_ext. intros prop_ref self4.
      destruct prop_ref; [apply Hfollow|done]. }
  assert (Hplain : ∀ self',
             visit_plain repr_str fs current_file visit schema path self'
             = visit_plain repr_str fs current_file visit' schema path self').
  { intros self'. unfold visit_plain.
    apply bind_ext. intros is_object self1. destruct is_object.
    - apply bind_ext. intros props self2. apply bind_ext. intros req self3.
      apply bind_ext. intros items self4. apply for_each_ext. apply Hprop.
    - apply bind_ext. intros is_array self2. destruct is_array; [|done].
      apply bind_ext. intros items_schema self3.
      apply bind_ext. intros nested_items self4.
      destruct nested_items; [apply Hvisit|done]. }
  unfold parse_step. apply bind_ext. intros has_ref self1.
  destruct has_ref; [apply Hfollow|].
  generalize ["allOf"; "anyOf"; "oneOf"]. intros keys. revert self1.
  induction keys as [|key keys IH]; intros self1; cbn [visit_combinators].
  { apply Hplain. }
  apply bind_ext. intros present self2. destruct present; [|apply IH].
  apply bind_ext. intros branches self3. apply bind_ext. intros subs self4.
  apply for_each_ext. intros sub self5. apply Hvisit.
Qed.

End Required.

(** ** Properties of the walker and of a run *)

Section WalkerProperties.

Variable repr_str : string → string.
Variable fs : FileSystem.

(** X1.  Whenever [parse_schema] returns or raises, on any document, the
    set of references being resolved is the one it was called with. *)
Theorem parse_schema_restores_guard (fuel : nat) (schema : json) (path : string)
    (parent_required : json) (current_file : string) (self self' : visualizer) :
  final (parse_schema repr_str fs fuel schema path parent_required current_file self)
  = Some self' →
  resolved_refs self' = resolved_refs self.
Proof.
  intros Hfinal.
  by destruct (parse_schema_keeps repr_str fs current_file fuel schema path
                 parent_required self self' Hfinal) as [? _].
Qed.

(** X2.  Whenever [parse_schema] returns or raises, on any document, the
    rows that were there are still there in the same places, and every row
    it has added sits at a path that starts with the path the walk was
    called with. *)
Theorem parse_schema_appends_rows (fuel : nat) (schema : json) (path : string)
    (parent_required : json) (current_file : string) (self self' : visualizer) :
  final (parse_schema repr_str fs fuel schema path parent_required current_file self)
  = Some self' →
  ∃ new : list SchemaProperty,
    properties self' = (properties self ++ new)%list
    ∧ Forall (fun r => String.prefix path (prop_path r) = true) new.
Proof.
  intros Hfinal.
  by destruct (parse_schema_keeps repr_str fs current_file fuel schema path
                 parent_required self self' Hfinal) as (_ & _ & _ & _ & ?).
Qed.

(** X3.  Whenever [parse_schema] returns or raises, the cache still holds
    every entry it held, unchanged; if every cached document was the parse
    of a file under its key, this is still so; and the trace of opened
    files and printed warnings has only been extended. *)
Theorem parse_schema_cache_grows (fuel : nat) (schema : json) (path : string)
    (parent_required : json) (current_file : string) (self self' : visualizer) :
  final (parse_schema repr_str fs fuel schema path parent_required current_file self)
  = Some self' →
  schema_cache self ⊆ schema_cache self'
  ∧ (cache_sound fs self → cache_sound fs self')
  ∧ ∃ events : list event, trace self' = (trace self ++ events)%list.
Proof.
  intros Hfinal.
  destruct (parse_schema_keeps repr_str fs current_file fuel schema path
              parent_required self self' Hfinal)
    as (_ & ? & ? & (events & ? & _) & _).
  by eauto.
Qed.

(** X4.  When a run of [visualize_schema] returns or raises, no reference
    is left in the set of references being resolved, every cached document
    is the parse of a file under its key, the trace has only been
    extended, and the rows it returns are the rows of the visualizer. *)
Theorem visualize_schema_leaves (fuel : nat) (schema_file : string)
    (self self' : visualizer) :
  final (visualize_schema repr_str fs fuel schema_file self) = Some self' →
  resolved_refs self' = ∅
  ∧ cache_sound fs self'
  ∧ (∃ events : list event, trace self' = (trace self ++ events)%list)
  ∧ (∀ rows, visualize_schema repr_str fs fuel schema_file self = Done rows self' →
             rows = properties self').
Proof.
  unfold visualize_schema, mbind, method_bind, update, get_properties.
  pose proof (load_schema_keeps fs "" schema_file (reset self)) as Hload.
  destruct (load_schema fs schema_file (reset self)) as [schema self1|e self1|];
    [| |done].
  - specialize (Hload self1 eq_refl).
    pose proof (parse_schema_keeps repr_str fs schema_file fuel schema ""
                  (JArr []) self1) as Hwalk.
    destruct (parse_schema repr_str fs fuel schema "" (JArr []) schema_file self1)
      as [[] self2|e self2|]; [| |done]; cbn; intros [= <-];
      destruct (extends_from_trans fs "" _ _ _ Hload (Hwalk _ eq_refl))
        as (Hr & _ & Hs & (events & Ht & _) & _).
    + split; [done|]. split; [by apply Hs|]. split; [by eauto|].
      by intros rows [= <-].
    + split; [done|]. split; [by apply Hs|]. split; [by eauto|]. done.
  - cbn. intros [= <-].
    destruct (Hload self1 eq_refl) as (Hr & _ & Hs & (events & Ht & _) & _).
    split; [done|]. split; [by apply Hs|]. split; [by eauto|]. done.
Qed.

(** X5.  A document in which every reference token is internal or remote
    cannot make the walker run away, whatever the file system holds: with
    fuel for the size of the document, [parse_schema] returns or raises. *)
Theorem parse_schema_ends_without_files (fuel : nat) (schema : json)
    (path : string) (parent_required : json) (current_file : string)
    (self : visualizer) :
  local_refs schema = true →
  (json_size schema ≤ fuel)%nat →
  parse_schema repr_str fs fuel schema path parent_required current_file self
  ≠ OutOfFuel.
Proof.
  intros Hlocal Hsize.
  by apply parse_schema_returns.
Qed.

(** X6.  The required list handed to [parse_schema] has no effect: the
    walk of a fragment is the same whatever list it is given. *)
Theorem parse_schema_required_unused (fuel : nat) (schema : json) (path : string)
    (required required' : json) (current_file : string) (self : visualizer) :
  parse_schema repr_str fs fuel schema path required current_file self
  = parse_schema repr_str fs fuel schema path required' current_file self.
Proof.
  revert schema path required required' self.
  induction fuel as [|fuel IH]; intros schema path required required' self;
    [done|].
  cbn [parse_schema]. apply parse_step_required.
  intros sub path' r r' self'. apply IH.
Qed.

End WalkerProperties.

(** ** References and ill-shaped fragments in the walk *)

Lemma prefix_http_not_internal (ref : string) :
  String.prefix "http" ref = true → String.prefix "#/" ref = false.
Proof.
  destruct ref as [|a ref]; [done|]. rewrite !prefix_cons.
  destruct (Ascii.eqb_spec "h" a) as [<-|]; [|done]. done.
Qed.


Section References.

Variable repr_str : string → string.
Variable fs : FileSystem.


(** Walking a value that is not a mapping. *)
Lemma parse_schema_scalar (fuel : nat) (schema : json) (path : string)
    (parent_required : json) (current_file : string) (self : visualizer) :
  (∀ kvs, schema ≠ JObj kvs) →
  ∃ e : exn,
    (e = TypeError ∨ e = AttributeError)
    ∧ parse_schema repr_str fs (S fuel) schema path parent_required current_file
        self = Raised e self.
Proof.
  intros Hshape. cbn [parse_schema]. unfold parse_step.
  destruct schema as [|b|n|s|xs|kvs];
    [by eauto|by eauto|by eauto| | |by destruct (Hshape kvs)].
  - cbn [py_in]. rewrite bind_lift_val.
    destruct (str_contains "$ref" s); [by eauto|].
    cbn [visit_combinators py_in]. rewrite bind_lift_val.
    destruct (str_contains "allOf" s); [by eauto|]. rewrite bind_lift_val.
    destruct (str_contains "anyOf" s); [by eauto|]. rewrite bind_lift_val.
    destruct (str_contains "oneOf" s); by eauto.
  - cbn [py_in]. rewrite bind_lift_val.
    destruct (existsb _ xs); [by eauto|].
    cbn [visit_combinators py_in]. rewrite bind_lift_val.
    destruct (existsb _ xs); [by eauto|]. rewrite bind_lift_val.
    destruct (existsb _ xs); [by eauto|]. rewrite bind_lift_val.
    destruct (existsb _ xs); by eauto.
Qed.

(** X7.  A document that is not a mapping makes the walker raise at once,
    [TypeError] or [AttributeError], before it has changed anything: so an
    empty YAML file, which loads as [None], ends the run. *)
Theorem parse_schema_not_a_mapping (fuel : nat) (schema : json) (path : string)
    (parent_required : json) (current_file : string) (self : visualizer) :
  (∀ kvs, schema ≠ JObj kvs) →
  ∃ e : exn,
    (e = TypeError ∨ e = AttributeError)
    ∧ parse_schema repr_str fs (S fuel) schema path parent_required current_file
        self = Raised e self.
Proof. apply parse_schema_scalar. Qed.

(** X8.  A fragment whose ["$ref"] is a remote token contributes nothing:
    whatever else the fragment declares, the walk adds no row, opens no
    file and leaves the visualizer as it was. *)
Theorem remote_reference_emits_nothing (fuel : nat) (kvs : list (string * json))
    (ref : string) (path : string) (parent_required : json)
    (current_file : string) (self : visualizer) :
  dict_get "$ref" kvs = Some (JStr ref) →
  String.prefix "http" ref = true →
  AStr ref ∉ resolved_refs self →
  parse_schema repr_str fs (S (S fuel)) (JObj kvs) path parent_required
    current_file self = Done tt self.
Proof.
  intros Hget Hhttp Hfresh. rewrite (parse_schema_ref _ _ _ _ _ _ _ _ _ Hget).
  rewrite resolve_reference_str, bool_decide_eq_false_2 by done.
  unfold try_finally. rewrite resolve_body_str.
  rewrite (prefix_http_not_internal _ Hhttp), Hhttp. cbn [mret method_ret].
  rewrite (set_resolved_refs_release (AStr ref) self Hfresh).
  apply parse_schema_placeholder. exists ref. right. by right.
Qed.

(** X9.  An internal token is looked up in the fragment that holds the
    ["$ref"] key, not in the document that fragment belongs to: the walk
    goes on in the value found under the token's keys inside that
    fragment, at the same path; when there is none, nothing is added. *)
Theorem internal_reference_is_local (fuel : nat) (kvs : list (string * json))
    (keys : list string) (ref : string) (path : string) (parent_required : json)
    (current_file : string) (self : visualizer) :
  dict_get "$ref" kvs = Some (JStr ref) →
  ref = "#/" ++ str_join "/" keys →
  keys ≠ [] →
  Forall (fun k => str_contains "/" k = false) keys →
  AStr ref ∉ resolved_refs self →
  (∀ frag, designates (JObj kvs) keys frag →
     parse_schema repr_str fs (S fuel) (JObj kvs) path parent_required
       current_file self
     = parse_schema repr_str fs fuel frag path parent_required current_file self)
  ∧ ((∀ frag, ¬ designates (JObj kvs) keys frag) →
     parse_schema repr_str fs (S (S fuel)) (JObj kvs) path parent_required
       current_file self = Done tt self).
Proof.
  intros Hget Href Hne Hall Hfresh.
  pose proof (resolve_reference_walk repr_str fs keys ref (JObj kvs) current_file
                self Href Hne Hall Hfresh) as Hres.
  split.
  - intros frag Hd. rewrite (parse_schema_ref _ _ _ _ _ _ _ _ _ Hget), Hres.
    unfold walk. apply descend_designates in Hd. by rewrite Hd.
  - intros Hnone. rewrite (parse_schema_ref _ _ _ _ _ _ _ _ _ Hget), Hres.
    unfold walk. destruct (descend keys (JObj kvs)) as [frag|] eqn:Hd.
    { apply descend_designates in Hd. by destruct (Hnone frag). }
    apply parse_schema_placeholder. exists ref. right. by left.
Qed.

(** X10.  A ["$ref"] whose value is not a string makes the walker raise
    and leaves the visualizer as it was.  A list or a mapping cannot be
    hashed, so the membership test raises [TypeError] before anything is
    added.  [None], a boolean or a number that is not in the set is added
    to it; it has no [startswith], so the [try] block raises
    [AttributeError], and the [finally] discards it again. *)
Theorem non_string_reference_raises (fuel : nat) (kvs : list (string * json))
    (token : json) (path : string) (parent_required : json)
    (current_file : string) (self : visualizer) :
  dict_get "$ref" kvs = Some token →
  (∀ ref, token ≠ JStr ref) →
  (∀ key, py_hash token = Val key → key ∉ resolved_refs self) →
  parse_schema repr_str fs (S fuel) (JObj kvs) path parent_required
    current_file self
  = Raised (match token with
            | JArr _ | JObj _ => TypeError
            | _ => AttributeError
            end) self.
Proof.
  intros Hget Hshape Hfresh. rewrite (parse_schema_ref _ _ _ _ _ _ _ _ _ Hget).
  destruct (py_hash token) as [key|e] eqn:Hhash.
  - rewrite (resolve_reference_not_str repr_str fs token key _ _ _ Hhash Hshape
               (Hfresh key eq_refl)).
    by destruct token.
  - unfold resolve_reference. rewrite Hhash.
    destruct token; cbn in Hhash; try discriminate; by injection Hhash as <-.
Qed.

End References.

(** ** References into files, and the loader *)



Section Files.

Variable repr_str : string → string.
Variable fs : FileSystem.

Lemma load_schema_set_refs (f : gset atom → gset atom) (file_path : string)
    (self : visualizer) :
  load_schema fs file_path (set_resolved_refs f self)
  = match load_schema fs file_path self with
    | Done doc self' => Done doc (set_resolved_refs f self')
    | Raised e self' => Raised e (set_resolved_refs f self')
    | OutOfFuel => OutOfFuel
    end.
Proof.
  destruct (fs_read fs (fs_locate fs file_path)) as [e| |err|doc] eqn:Hread.
  { by rewrite !(load_schema_unresolvable fs _ e). }
  all: rewrite !load_schema_resolved by (intros e; rewrite Hread; discriminate).
  all: cbn; destruct (schema_cache self !! _); [done|]; by rewrite Hread.
Qed.

Lemma load_schema_guarded (key : atom) (file_path : string)
    (self : visualizer) :
  key ∉ resolved_refs self →
  try_finally (load_schema fs file_path)
    (set_resolved_refs (fun refs => refs ∖ {[key]}))
    (set_resolved_refs (fun refs => refs ∪ {[key]}) self)
  = load_schema fs file_path self.
Proof.
  intros Hfresh. unfold try_finally. rewrite load_schema_set_refs.
  destruct (load_schema_frame fs file_path self) as (self' & Hfinal & Hrefs & _).
  destruct (load_schema fs file_path self) as [doc s|e s|]; [| |done];
    injection Hfinal as ->; f_equal; apply set_resolved_refs_release;
    by rewrite Hrefs.
Qed.

(** X11.  A token that names a file and nothing else, and is not being
    resolved already, resolves to exactly what the loader gives for the
    path beside the referencing file, with the loader's effects and no
    other: the document that holds the token plays no part, and a file
    that is missing gives the empty document, not a placeholder. *)
Theorem whole_file_reference (ref : string) (current_schema : json)
    (current_path : string) (self : visualizer) :
  str_contains "#/" ref = false →
  String.prefix "http" ref = false →
  AStr ref ∉ resolved_refs self →
  resolve_reference repr_str fs (JStr ref) current_schema current_path self
  = load_schema fs (fs_sibling fs current_path ref) self.
Proof.
  intros Hwhole Hhttp Hfresh.
  rewrite resolve_reference_str, bool_decide_eq_false_2 by done.
  rewrite resolve_body_str.
  rewrite (str_contains_prefix _ _ Hwhole), Hhttp, (str_split_once_none _ _ Hwhole).
  by apply load_schema_guarded.
Qed.

(** X12.  A token [file#/a/b/c] into a file that parses and is not cached
    yet: the file is opened once and its document cached under the key
    the path resolves to, and the token resolves to the fragment reached
    in that document through the keys [a], [b], [c], or to the "unknown"
    placeholder when a key is missing there. *)
Theorem file_fragment_reference (file_part ref path : string)
    (keys : list string) (doc current_schema : json) (current_path : string)
    (self : visualizer) :
  ref = file_part ++ "#/" ++ str_join "/" keys →
  str_contains "#/" file_part = false →
  keys ≠ [] →
  Forall (fun k => str_contains "/" k = false) keys →
  String.prefix "#/" ref = false →
  String.prefix "http" ref = false →
  AStr ref ∉ resolved_refs self →
  path = fs_locate fs (fs_sibling fs current_path file_part) →
  schema_cache self !! fs_resolve fs path = None →
  fs_read fs path = Parses doc →
  (∀ frag, designates doc keys frag →
     resolve_reference repr_str fs (JStr ref) current_schema current_path self
     = Done frag
         (set_schema_cache (insert (fs_resolve fs path) doc)
            (log (Opened path) self)))
  ∧ ((∀ frag, ¬ designates doc keys frag) →
     resolve_reference repr_str fs (JStr ref) current_schema current_path self
     = Done (unknown_placeholder ref)
         (set_schema_cache (insert (fs_resolve fs path) doc)
            (log (Opened path) self))).
Proof.
  intros Href Hfp Hne Hall Hint Hhttp Hfresh Hpath Hmiss Hread.
  assert (Hrun : resolve_reference repr_str fs (JStr ref) current_schema current_path self
                 = Done (walk ref keys doc)
                     (set_schema_cache (insert (fs_resolve fs path) doc)
                        (log (Opened path) self))).
  { rewrite resolve_reference_str, bool_decide_eq_false_2 by done.
    unfold try_finally. rewrite resolve_body_str, Hint, Hhttp.
    assert (Hsplit : str_split_once "#/" ref
                     = Some (file_part, str_join "/" keys))
      by (rewrite Href; by apply str_split_once_app).
    rewrite Hsplit. unfold mbind, method_bind.
    rewrite load_schema_set_refs.
    rewrite load_schema_resolved
      by (intros e; rewrite <- Hpath, Hread; discriminate).
    rewrite <- Hpath, Hmiss, Hread. cbn [mret method_ret].
    rewrite (str_split_join "/" keys Hne Hall). f_equal.
    destruct self as [refs cache props tr].
    unfold set_resolved_refs, set_schema_cache, log. cbn in *.
    f_equal. by apply add_discard. }
  rewrite Hrun. unfold walk. split.
  - intros frag Hd. apply descend_designates in Hd. by rewrite Hd.
  - intros Hnone. destruct (descend keys doc) as [frag|] eqn:Hd; [|done].
    apply descend_designates in Hd. by destruct (Hnone frag).
Qed.

(** X13.  A failed load is not cached: loading a missing file twice looks
    for it twice and prints the warning twice, and loading a file that
    does not parse twice opens it twice; the cache is the same after as
    before, and both loads return the empty document. *)
Theorem load_schema_failure_not_cached (file_path path : string)
    (self : visualizer) :
  path = fs_locate fs file_path →
  schema_cache self !! fs_resolve fs path = None →
  (fs_read fs path = NoSuchFile →
   ∃ self1 self2,
     load_schema fs file_path self = Done (JObj []) self1
     ∧ load_schema fs file_path self1 = Done (JObj []) self2
     ∧ schema_cache self2 = schema_cache self
     ∧ trace self2
       = (trace self
          ++ [Printed ("Warning: Could not find file: " ++ path);
              Printed ("Warning: Could not find file: " ++ path)])%list)
  ∧ (∀ err, fs_read fs path = Malformed err →
     ∃ self1 self2,
       load_schema fs file_path self = Done (JObj []) self1
       ∧ load_schema fs file_path self1 = Done (JObj []) self2
       ∧ schema_cache self2 = schema_cache self
       ∧ trace self2
         = (trace self
            ++ [Opened path;
                Printed ("Warning: Error loading " ++ path ++ ": " ++ err);
                Opened path;
                Printed ("Warning: Error loading " ++ path ++ ": " ++ err)])%list).
Proof.
  intros Hpath Hmiss. split.
  - intros Hread.
    exists (log (Printed ("Warning: Could not find file: " ++ path)) self),
      (log (Printed ("Warning: Could not find file: " ++ path))
         (log (Printed ("Warning: Could not find file: " ++ path)) self)).
    rewrite !load_schema_resolved
      by (intros e; rewrite <- Hpath, Hread; discriminate).
    rewrite <- Hpath. cbn [schema_cache log].
    rewrite !Hmiss, !Hread. repeat split; try done.
    cbn. by rewrite <- app_assoc.
  - intros err Hread.
    exists (log (Printed ("Warning: Error loading " ++ path ++ ": " ++ err))
              (log (Opened path) self)),
      (log (Printed ("Warning: Error loading " ++ path ++ ": " ++ err))
         (log (Opened path)
            (log (Printed ("Warning: Error loading " ++ path ++ ": " ++ err))
               (log (Opened path) self)))).
    rewrite !load_schema_resolved
      by (intros e; rewrite <- Hpath, Hread; discriminate).
    rewrite <- Hpath. cbn [schema_cache log].
    rewrite !Hmiss, !Hread. repeat split; try done.
    cbn. by rewrite <- !app_assoc.
Qed.

(** X14.  A run on a root file that is missing returns normally with an
    empty table: the cache and the rows are empty, and the one thing done
    is the warning that the file could not be found. *)
Theorem visualize_schema_missing_root (fuel : nat) (schema_file : string)
    (self : visualizer) :
  fs_read fs (fs_locate fs schema_file) = NoSuchFile →
  visualize_schema repr_str fs (S fuel) schema_file self
  = Done []
      (mkVisualizer ∅ ∅ []
         (trace self
          ++ [Printed ("Warning: Could not find file: "
                       ++ fs_locate fs schema_file)])%list).
Proof.
  intros Hread. unfold visualize_schema, mbind, method_bind, update.
  rewrite load_schema_resolved by (intros e; rewrite Hread; discriminate).
  cbn [reset schema_cache]. rewrite lookup_empty, Hread.
  done.
Qed.

(** X15.  A run on a root file that parses to a well-formed schema without
    references and combinators returns, given fuel for the size of the
    schema, a table with one row per declared property the walk reaches,
    in order, addressed from the root. *)
Theorem visualize_schema_declared (fuel : nat) (schema_file : string)
    (schema : json) (self : visualizer) :
  fs_read fs (fs_locate fs schema_file) = Parses schema →
  schema_ok false schema = true →
  (json_size schema ≤ fuel)%nat →
  ∃ (rows : list SchemaProperty) (self' : visualizer),
    visualize_schema repr_str fs fuel schema_file self = Done rows self'
    ∧ map row_key rows = declared_properties schema "".
Proof.
  intros Hread Hok Hsize. unfold visualize_schema, mbind, method_bind, update.
  assert (Hmiss : schema_cache (reset self)
                  !! fs_resolve fs (fs_locate fs schema_file) = None)
    by apply lookup_empty.
  rewrite load_schema_resolved by (intros e; rewrite Hread; discriminate).
  rewrite Hmiss, Hread.
  destruct (parse_schema_declared repr_str fs fuel schema "" (JArr [])
              schema_file Hok Hsize
              (set_schema_cache
                 (insert (fs_resolve fs (fs_locate fs schema_file)) schema)
                 (log (Opened (fs_locate fs schema_file)) (reset self))))
    as (new & -> & Hrows).
  eexists _, _. split; [done|]. cbn. by rewrite Hrows, declared_stable.
Qed.

End Files.

(** ** Edge cases of the derivers *)

Lemma is_str_eq (v : json) (s : string) : is_str v s = true ↔ v = JStr s.
Proof.
  destruct v; cbn; try (split; [discriminate|done]).
  rewrite String.eqb_eq. split; [by intros ->|by intros [= ->]].
Qed.

Lemma strs_of_raises (names : list json) (e : exn) :
  strs_of names = Exc e ↔ forallb is_string names = false ∧ e = TypeError.
Proof.
  induction names as [|x names IH]; cbn [strs_of forallb].
  { split; [done|by intros [? _]]. }
  destruct x; cbn [is_string andb];
    try (split; [by intros [= <-]|by intros [_ ->]]).
  destruct (strs_of names) as [ss|e'].
  - split; [done|]. intros H. by apply IH in H.
  - rewrite <- IH. split; by intros [= ->].
Qed.

Section DeriverEdges.

Variable repr_str : string → string.

(** X16.  For a required array property the lower bound is never
    negative and a null upper bound is no bound: a [minItems] of zero or
    less shows as "0", and [maxItems: null] shows as "*" like an absent
    [maxItems]. *)
Theorem get_cardinality_bounds (kvs : list (string * json))
    (required : list json) (prop_name : string) :
  dict_get "type" kvs = Some (JStr "array") →
  JStr prop_name ∈ required →
  (∀ (m : Z) (upper : string),
     dict_get "minItems" kvs = Some (JNum m) → (m ≤ 0)%Z →
     ((dict_get "maxItems" kvs = None ∨ dict_get "maxItems" kvs = Some JNull)
      ∧ upper = "*")
     ∨ (∃ v, dict_get "maxItems" kvs = Some v ∧ v ≠ JNull
             ∧ upper = py_str repr_str v) →
     get_cardinality repr_str (JObj kvs) (JArr required) prop_name
     = Val ("0.." ++ upper))
  ∧ (∀ m : Z,
       dict_get "minItems" kvs = Some (JNum m) → (0 < m)%Z →
       dict_get "maxItems" kvs = Some JNull →
       get_cardinality repr_str (JObj kvs) (JArr required) prop_name
       = Val (pretty m ++ "..*")).
Proof.
  intros Hty Hin. apply existsb_is_str in Hin.
  unfold get_cardinality. cbn [py_in py_get mbind res_bind].
  rewrite Hin, Hty. cbn [mbind res_bind is_str String.eqb Ascii.eqb Bool.eqb].
  split.
  - intros m upper -> Hm Hupper. cbn [mbind res_bind py_gt0].
    destruct (Z.ltb_spec 0 m); [lia|].
    destruct Hupper as [[[-> | ->] ->]|(v & -> & Hv & ->)]; cbn; try done.
    by destruct v.
  - intros m -> Hm ->. cbn [mbind res_bind py_gt0].
    by destruct (Z.ltb_spec 0 m); [|lia].
Qed.

(** X17.  On a schema mapping and a required list, [get_cardinality]
    raises in one case only, and then [TypeError]: the property is an
    array, it is required, and its [minItems] is neither a number nor a
    boolean.  In particular an array that is not required never raises,
    whatever its bounds are. *)
Theorem get_cardinality_raises_iff (kvs : list (string * json))
    (required : list json) (prop_name : string) (e : exn) :
  get_cardinality repr_str (JObj kvs) (JArr required) prop_name = Exc e
  ↔ e = TypeError
    ∧ dict_get "type" kvs = Some (JStr "array")
    ∧ JStr prop_name ∈ required
    ∧ ∃ v, dict_get "minItems" kvs = Some v
           ∧ (∀ n, v ≠ JNum n) ∧ (∀ b, v ≠ JBool b).
Proof.
  unfold get_cardinality. cbn [py_in py_get mbind res_bind]. split.
  - intros Hraise.
    destruct (existsb (fun x => is_str x prop_name) required) eqn:Hreq.
    2: { destruct (dict_get "type" kvs) as [ty|]; cbn [mbind res_bind] in Hraise;
           [|done].
         destruct (is_str ty "array"); [|done].
         by destruct (dict_get "minItems" kvs), (dict_get "maxItems" kvs). }
    apply existsb_is_str in Hreq.
    destruct (dict_get "type" kvs) as [ty|]; cbn [mbind res_bind] in Hraise;
      [|done].
    destruct (is_str ty "array") eqn:Harr; [|done].
    apply is_str_eq in Harr as ->.
    destruct (dict_get "minItems" kvs) as [mi|]; cbn [mbind res_bind] in Hraise.
    + assert (Hgt : py_gt0 mi = Exc e).
      { destruct (dict_get "maxItems" kvs); cbn [mbind res_bind] in Hraise;
          destruct (py_gt0 mi) as [[]|]; cbn [mbind res_bind] in Hraise;
          try (by destruct (negb _)); by injection Hraise as ->. }
      destruct mi; try done; injection Hgt as <-;
        (split; [done|]; split; [done|]; split; [done|]; by eexists).
    + destruct (dict_get "maxItems" kvs); cbn in Hraise; [|done].
      by destruct (negb _).
  - intros (-> & Hty & Hin & v & Hmin & Hn & Hb).
    apply existsb_is_str in Hin. rewrite Hin, Hty, Hmin.
    cbn [mbind res_bind is_str String.eqb Ascii.eqb Bool.eqb].
    destruct (dict_get "maxItems" kvs); cbn [mbind res_bind];
      destruct v; try done; by (destruct (Hn n) || destruct (Hb b)).
Qed.

(** X18.  On a schema mapping, [get_type_string] raises in three cases
    only: the type is a list with a member that is not a string
    ([TypeError]); the type is "array" with non-empty items whose own
    signature raises; there is no type and the enum is [None], a boolean or
    a number ([TypeError]). *)
Theorem get_type_string_raises_iff (kvs : list (string * json)) (e : exn) :
  get_type_string repr_str (JObj kvs) = Exc e
  ↔ (∃ names, dict_get "type" kvs = Some (JArr names)
              ∧ forallb is_string names = false ∧ e = TypeError)
    ∨ (dict_get "type" kvs = Some (JStr "array")
       ∧ ∃ items, dict_get "items" kvs = Some items
                  ∧ py_truthy items = true
                  ∧ get_type_string repr_str items = Exc e)
    ∨ (dict_get "type" kvs = None
       ∧ ∃ v, dict_get "enum" kvs = Some v
              ∧ (v = JNull ∨ (∃ b, v = JBool b) ∨ (∃ n, v = JNum n))
              ∧ e = TypeError).
Proof.
  rewrite get_type_string_obj. split.
  - intros Hraise. destruct (dict_get "type" kvs) as [ty|].
    + assert (Harray : (∀ names, ty ≠ JArr names) →
                ty = JStr "array"
                ∧ ∃ items, dict_get "items" kvs = Some items
                           ∧ py_truthy items = true
                           ∧ get_type_string repr_str items = Exc e).
      { intros Hshape.
        destruct (is_str ty "array") eqn:Harr.
        - apply is_str_eq in Harr as ->. split; [done|].
          destruct (dict_get "items" kvs) as [items|]; [|done].
          exists items. destruct (py_truthy items); [|done].
          destruct (get_type_string repr_str items) as [t|e']; [done|].
          by injection Hraise as ->.
        - destruct ty; try (by destruct (is_str _ "object")).
          by destruct (Hshape xs). }
      destruct ty as [| | |s|names|okvs].
      1-4,6: destruct Harray as [-> ?]; [done|right; by left].
      left. exists names. split; [done|].
      destruct (strs_of names) as [ss|e'] eqn:Hstrs; [done|].
      injection Hraise as ->. by apply strs_of_raises.
    + right. right. split; [done|].
      destruct (dict_get "enum" kvs) as [ev|].
      * exists ev. split; [done|].
        destruct ev as [|b|n|s|xs|okvs]; cbn [py_len mbind res_bind] in Hraise;
          try (injection Hraise as <-; by eauto 6);
          by destruct (_ <=? 3)%nat.
      * destruct (dict_has "oneOf" kvs); [done|].
        destruct (dict_has "anyOf" kvs); [done|].
        destruct (dict_has "allOf" kvs); [done|].
        by destruct (dict_get "$ref" kvs).
  - intros [(names & -> & Hbad & ->)|[[-> (items & -> & -> & ->)]
                                      |(-> & v & -> & Hv & ->)]].
    + assert (Hstrs : strs_of names = Exc TypeError) by by apply strs_of_raises.
      by rewrite Hstrs.
    + done.
    + by destruct Hv as [->|[[b ->]|[n ->]]].
Qed.

(** X19.  On a well-formed schema both derivers return a value: the type
    signature is defined, and so is the cardinality against any required
    list and property name. *)
Theorem derivers_total_on_well_formed (combinators : bool) (schema : json) :
  schema_ok combinators schema = true →
  (∃ t, get_type_string repr_str schema = Val t)
  ∧ (∀ (required : list json) (prop_name : string),
       ∃ card,
         get_cardinality repr_str schema (JArr required) prop_name = Val card).
Proof.
  intros Hok. split.
  - by eapply (get_type_string_total repr_str combinators (json_size schema)).
  - intros required prop_name. by eapply get_cardinality_total.
Qed.

End DeriverEdges.

(** ** Ill-shaped keywords in the walk *)

Section IllShaped.

Variable repr_str : string → string.
Variable fs : FileSystem.


(** X20.  The value of the combinator the walker takes is iterated
    whatever it is.  With [None], a boolean or a number the walk raises
    [TypeError]; an empty list, mapping or string adds nothing; a
    non-empty mapping or string is iterated over its keys or characters,
    and the walk raises on the first of them.  In each case the
    visualizer is left as it was. *)
Theorem combinator_not_a_list (fuel : nat) (kvs : list (string * json))
    (key : string) (branches : json) (path : string) (parent_required : json)
    (current_file : string) (self : visualizer) :
  dict_get "$ref" kvs = None →
  first_combinator kvs = Some (key, branches) →
  (branches = JNull ∨ (∃ b, branches = JBool b) ∨ (∃ n, branches = JNum n) →
   parse_schema repr_str fs (S fuel) (JObj kvs) path parent_required
     current_file self = Raised TypeError self)
  ∧ (branches = JArr [] ∨ branches = JStr "" ∨ branches = JObj [] →
     parse_schema repr_str fs (S fuel) (JObj kvs) path parent_required
       current_file self = Done tt self)
  ∧ ((∃ a s, branches = JStr (String a s))
     ∨ (∃ entry okvs, branches = JObj (entry :: okvs)) →
     ∃ e, (e = TypeError ∨ e = AttributeError)
          ∧ parse_schema repr_str fs (S (S fuel)) (JObj kvs) path
              parent_required current_file self = Raised e self).
Proof.
  intros Href Hfirst. split; [|split].
  - intros Hscalar.
    rewrite (parse_schema_combinator _ _ _ _ _ _ _ _ _ _ Href Hfirst).
    by destruct Hscalar as [->|[[b ->]|[n ->]]].
  - intros Hempty.
    rewrite (parse_schema_combinator _ _ _ _ _ _ _ _ _ _ Href Hfirst).
    by destruct Hempty as [->|[-> | ->]].
  - intros Hfull.
    rewrite (parse_schema_combinator _ _ _ _ _ _ _ _ _ _ Href Hfirst).
    destruct Hfull as [(a & s & ->)|([k v] & okvs & ->)].
    + cbn [py_iter]. rewrite bind_lift_val.
      unfold chars. cbn [String.list_ascii_of_string map for_each].
      unfold mbind at 1, method_bind.
      destruct (parse_schema_scalar repr_str fs fuel (JStr (String a ""))
                  (sub_path key path) parent_required current_file self)
        as (e & He & ->); [done|]. by eauto.
    + cbn [py_iter]. rewrite bind_lift_val.
      cbn [map for_each fst]. unfold mbind at 1, method_bind.
      destruct (parse_schema_scalar repr_str fs fuel (JStr k)
                  (sub_path key path) parent_required current_file self)
        as (e & He & ->); [done|]. by eauto.
Qed.

End IllShaped.

Section IllShapedKeywords.

Variable repr_str : string → string.
Variable fs : FileSystem.

(** X21.  The walker takes [properties] and [items] for mappings without
    looking: a fragment whose [properties] is anything else, and an array
    fragment whose [items] is anything else, make it raise
    [AttributeError] before any row is added. *)
Theorem properties_or_items_not_a_mapping (fuel : nat)
    (kvs : list (string * json)) (v : json) (path : string)
    (parent_required : json) (current_file : string) (self : visualizer) :
  dict_get "$ref" kvs = None →
  first_combinator kvs = None →
  (∀ okvs, v ≠ JObj okvs) →
  (dict_get "properties" kvs = Some v →
   parse_schema repr_str fs (S fuel) (JObj kvs) path parent_required
     current_file self = Raised AttributeError self)
  ∧ (dict_get "properties" kvs = None →
     dict_get "type" kvs = Some (JStr "array") →
     dict_get "items" kvs = Some v →
     parse_schema repr_str fs (S fuel) (JObj kvs) path parent_required
       current_file self = Raised AttributeError self).
Proof.
  intros Href Hfirst Hshape.
  rewrite parse_schema_no_ref, visit_combinators_none by done.
  unfold visit_plain. rewrite object_like_obj, bind_lift_val. split.
  - intros Hprops. unfold is_object_like, dict_has. rewrite Hprops, orb_true_r.
    cbn [py_get]. rewrite Hprops, !bind_lift_val.
    destruct (dict_get "required" kvs); rewrite bind_lift_val;
      (destruct v as [| | | | |okvs]; first [done | by destruct (Hshape okvs)]).
  - intros Hprops Hty Hitems. unfold is_object_like, dict_has.
    rewrite Hprops, Hty. cbn [is_str String.eqb Ascii.eqb Bool.eqb orb].
    rewrite array_with_items_obj, bind_lift_val. unfold array_items.
    rewrite Hty, Hitems. cbn [is_str String.eqb Ascii.eqb Bool.eqb py_getitem].
    rewrite Hitems, bind_lift_val.
    destruct v as [| | | | |okvs]; first [done | by destruct (Hshape okvs)].
Qed.

End IllShapedKeywords.

(** ** A run does not depend on what came before *)

Lemma same_but_trace_refl (self : visualizer) : same_but_trace self self.
Proof. done. Qed.

Lemma blind_lift {A : Type} (r : res A) : blind (lift r).
Proof. intros self1 self2 Hsame. by destruct r. Qed.

Lemma blind_ret {A : Type} (a : A) : blind (mret a).
Proof. by intros self1 self2 Hsame. Qed.

Lemma blind_bind {A B : Type} (m : method A) (k : A → method B) :
  blind m → (∀ a, blind (k a)) → blind (m ≫= k).
Proof.
  intros Hm Hk self1 self2 Hsame. unfold mbind, method_bind.
  specialize (Hm self1 self2 Hsame).
  destruct (m self1) as [a s1|e s1|], (m self2) as [b s2|e' s2|]; try done.
  destruct Hm as [<- Hs]. by apply Hk.
Qed.

Lemma blind_for_each {A : Type} (xs : list A) (body : A → method unit) :
  (∀ x, blind (body x)) → blind (for_each xs body).
Proof.
  intros Hbody. induction xs as [|x xs IH]; cbn [for_each].
  - apply blind_ret.
  - apply blind_bind; [apply Hbody | by intros _].
Qed.

Section Blind.

Variable repr_str : string → string.
Variable fs : FileSystem.
Variable current_file : string.

Lemma load_schema_blind (file_path : string) : blind (load_schema fs file_path).
Proof.
  intros self1 self2 (Hr & Hc & Hp).
  destruct (fs_read fs (fs_locate fs file_path)) as [e| |err|doc] eqn:Hread.
  { rewrite !(load_schema_unresolvable fs _ e) by done. by repeat split. }
  all: rewrite !load_schema_resolved by (intros e; rewrite Hread; discriminate).
  all: rewrite Hc; destruct (schema_cache self2 !! _); [done|].
  all: rewrite Hread; cbn; repeat split; try done.
  unfold set_schema_cache, log. cbn. by rewrite Hc.
Qed.

Lemma resolve_reference_blind (ref holder : json) (current_path : string) :
  blind (resolve_reference repr_str fs ref holder current_path).
Proof.
  intros self1 self2 Hsame. pose proof Hsame as (Hr & Hc & Hp).
  unfold resolve_reference.
  destruct (py_hash ref) as [key|e]; [|done].
  rewrite !bind_lift_val, Hr. case_bool_decide; [done|].
  unfold try_finally.
  assert (Hbody : blind (resolve_body fs ref holder current_path)).
  { unfold resolve_body.
    apply blind_bind; [apply blind_lift | intros token].
    destruct (String.prefix "#/" token); [apply blind_ret|].
    destruct (String.prefix "http" token); [apply blind_ret|].
    destruct (str_split_once "#/" token) as [[file_part fragment]|];
      [|apply load_schema_blind].
    apply blind_bind; [apply load_schema_blind | intros doc; apply blind_ret]. }
  assert (Hsame' : same_but_trace
                     (set_resolved_refs (λ refs, refs ∪ {[key]}) self1)
                     (set_resolved_refs (λ refs, refs ∪ {[key]}) self2)).
  { repeat split; cbn; congruence. }
  specialize (Hbody _ _ Hsame').
  destruct (resolve_body fs ref holder current_path _) as [a s1|e s1|],
           (resolve_body fs ref holder current_path _) as [b s2|e' s2|];
    try done; destruct Hbody as (<- & Hr' & Hc' & Hp');
    repeat split; cbn; congruence.
Qed.

Lemma record_blind (path prop_name : string) (prop_schema required : json) :
  blind (record repr_str path prop_name prop_schema required).
Proof.
  unfold record.
  repeat (apply blind_bind; [apply blind_lift | intros ?]).
  intros self1 self2 (Hr & Hc & Hp). cbn.
  repeat split; cbn; congruence.
Qed.

Local Ltac blind_step :=
  first [ apply blind_bind; [apply blind_lift | intros ?]
        | apply blind_ret ].

Lemma parse_step_blind (visit : json → string → json → method unit)
    (schema : json) (path : string) (parent_required : json) :
  (∀ sub path' required, blind (visit sub path' required)) →
  blind (parse_step repr_str fs current_file visit schema path parent_required).
Proof.
  intros Hvisit.
  assert (Hfollow : ∀ holder path' required,
             blind (follow_ref repr_str fs current_file visit holder path' required)).
  { intros holder path' required. unfold follow_ref. blind_step.
    apply blind_bind; [apply resolve_reference_blind | intros ?; apply Hvisit]. }
  assert (Hprop : ∀ required item,
             blind (visit_property repr_str fs current_file visit path required item)).
  { intros required item. unfold visit_property. cbv zeta.
    apply blind_bind; [apply record_blind | intros _].
    blind_step. destruct a; [apply Hvisit|].
    blind_step. destruct a.
    - do 2 blind_step. destruct a0; [apply Hvisit|].
      blind_step. destruct a0; [apply Hfollow|blind_step].
    - blind_step. destruct a; [apply Hfollow|blind_step]. }
  assert (Hplain : blind (visit_plain repr_str fs current_file visit schema path)).
  { unfold visit_plain. blind_step. destruct a.
    - do 3 blind_step. by apply blind_for_each.
    - blind_step. destruct a; [|blind_step].
      do 2 blind_step. destruct a0; [apply Hvisit|blind_step]. }
  unfold parse_step. blind_step. destruct a; [apply Hfollow|].
  generalize ["allOf"; "anyOf"; "oneOf"]. intros keys.
  induction keys as [|key keys IH]; cbn [visit_combinators]; [done|].
  blind_step. destruct a; [|done]. do 2 blind_step.
  apply blind_for_each. intros sub. apply Hvisit.
Qed.

Lemma parse_schema_blind (fuel : nat) (schema : json) (path : string)
    (parent_required : json) :
  blind (parse_schema repr_str fs fuel schema path parent_required current_file).
Proof.
  revert schema path parent_required.
  induction fuel as [|fuel IH]; intros schema path parent_required.
  { by intros self1 self2 Hsame. }
  cbn [parse_schema]. by apply parse_step_blind.
Qed.

End Blind.

Section Runs.

Variable repr_str : string → string.
Variable fs : FileSystem.

(** X22.  A run starts afresh: on any two visualizers, whatever they
    hold from earlier runs, [visualize_schema] on the same file with the
    same fuel has the same outcome, with the same table or the same
    exception, and leaves the same cache and the same rows. *)
Theorem visualize_schema_fresh (fuel : nat) (schema_file : string)
    (self1 self2 : visualizer) :
  alike (visualize_schema repr_str fs fuel schema_file self1)
        (visualize_schema repr_str fs fuel schema_file self2).
Proof.
  unfold visualize_schema.
  assert (Hrest : blind (schema ← load_schema fs schema_file;
                         parse_schema repr_str fs fuel schema "" (JArr [])
                           schema_file;;
                         get_properties)).
  { apply blind_bind; [apply load_schema_blind | intros schema].
    apply blind_bind; [apply parse_schema_blind | intros _].
    intros s1 s2 Hsame. unfold get_properties, alike.
    split; [by destruct Hsame as (_ & _ & ?)|done]. }
  unfold mbind at 1 3, method_bind, update. by apply Hrest.
Qed.

End Runs.

(** ** Concrete runs of the further properties *)

(** The walk of [nested_reference], which resolves a reference on its
    way, ends with the empty set of references it started with. *)
Lemma parse_schema_restores_guard_witness :
  ∃ self' : visualizer,
    final (parse_schema repr_plain fs_empty 3 nested_reference "" (JArr [])
             "root.json" new_visualizer) = Some self'
    ∧ resolved_refs self' = resolved_refs new_visualizer.
Proof.
  eexists. split; [vm_compute; reflexivity|].
  apply (parse_schema_restores_guard repr_plain fs_empty 3 nested_reference ""
           (JArr []) "root.json" new_visualizer).
  vm_compute. reflexivity.
Defined.

(** The rows of [tuple_items] walked at ["/a"], on which the walker
    raises, sit under ["/a"]. *)
Lemma parse_schema_appends_rows_witness :
  ∃ self' : visualizer,
    final (parse_schema repr_plain fs_empty 3 tuple_items "/a" (JArr [])
             "root.json" new_visualizer) = Some self'
    ∧ ∃ new : list SchemaProperty,
        properties self' = (properties new_visualizer ++ new)%list
        ∧ Forall (fun r => String.prefix "/a" (prop_path r) = true) new.
Proof.
  eexists. split; [vm_compute; reflexivity|].
  apply (parse_schema_appends_rows repr_plain fs_empty 3 tuple_items "/a"
           (JArr []) "root.json" new_visualizer).
  vm_compute. reflexivity.
Defined.

(** The walk of [refers_to_defs] loads [defs.json] into a sound cache. *)
Lemma parse_schema_cache_grows_witness :
  ∃ self' : visualizer,
    final (parse_schema repr_plain fs_defs 3 refers_to_defs "" (JArr [])
             "root.json" new_visualizer) = Some self'
    ∧ schema_cache new_visualizer ⊆ schema_cache self'
    ∧ (cache_sound fs_defs new_visualizer → cache_sound fs_defs self')
    ∧ ∃ events : list event, trace self' = (trace new_visualizer ++ events)%list.
Proof.
  eexists. split; [vm_compute; reflexivity|].
  apply (parse_schema_cache_grows repr_plain fs_defs 3 refers_to_defs ""
           (JArr []) "root.json" new_visualizer).
  vm_compute. reflexivity.
Defined.

(** A run on [defs.json]. *)
Lemma visualize_schema_leaves_witness :
  ∃ self' : visualizer,
    final (visualize_schema repr_plain fs_defs 3 "defs.json" new_visualizer)
    = Some self'
    ∧ resolved_refs self' = ∅
    ∧ cache_sound fs_defs self'.
Proof.
  eexists. split; [vm_compute; reflexivity|].
  destruct (visualize_schema_leaves repr_plain fs_defs 3 "defs.json"
              new_visualizer _ ltac:(vm_compute; reflexivity))
    as (Hrefs & Hsound & _).
  split; [exact Hrefs | exact Hsound].
Defined.

(** [nested_reference] holds an internal reference only. *)
Lemma parse_schema_ends_without_files_witness :
  parse_schema repr_plain fs_defs 16 nested_reference "" (JArr []) "root.json"
    new_visualizer ≠ OutOfFuel.
Proof.
  apply (parse_schema_ends_without_files repr_plain fs_defs 16 nested_reference
           "" (JArr []) "root.json" new_visualizer); [reflexivity|].
  vm_compute. lia.
Defined.

(** An empty YAML file loads as [None]. *)
Lemma parse_schema_not_a_mapping_witness :
  ∃ e : exn,
    (e = TypeError ∨ e = AttributeError)
    ∧ parse_schema repr_plain fs_empty 1 JNull "" (JArr []) "root.json"
        new_visualizer = Raised e new_visualizer.
Proof.
  apply (parse_schema_not_a_mapping repr_plain fs_empty 0 JNull "" (JArr [])
           "root.json" new_visualizer).
  intros kvs. discriminate.
Defined.

(** The property declared beside a remote reference gives no row. *)
Lemma remote_reference_emits_nothing_witness :
  parse_schema repr_plain fs_empty 2 remote_with_properties "" (JArr [])
    "root.json" new_visualizer = Done tt new_visualizer.
Proof.
  apply (remote_reference_emits_nothing repr_plain fs_empty 0
           [("$ref", JStr "https://example.org/person.json");
            ("properties", JObj [("name", JObj [("type", JStr "string")])])]
           "https://example.org/person.json" "" (JArr []) "root.json"
           new_visualizer eq_refl eq_refl).
  apply not_elem_of_empty.
Defined.

(** At the root of [with_definitions] the reference finds its definition
    and the walk goes on in it. *)
Lemma internal_reference_is_local_witness :
  parse_schema repr_plain fs_empty 2 with_definitions "" (JArr []) "root.json"
    new_visualizer
  = parse_schema repr_plain fs_empty 1 (JObj [("type", JStr "string")]) ""
      (JArr []) "root.json" new_visualizer.
Proof.
  apply (proj1 (internal_reference_is_local repr_plain fs_empty 1
                  [("$ref", JStr "#/definitions/Name");
                   ("definitions",
                    JObj [("Name", JObj [("type", JStr "string")])])]
                  ["definitions"; "Name"] "#/definitions/Name" "" (JArr [])
                  "root.json" new_visualizer eq_refl eq_refl
                  ltac:(discriminate) ltac:(repeat constructor)
                  ltac:(apply not_elem_of_empty))).
  eapply designates_step; [reflexivity|].
  eapply designates_step; [reflexivity|]. apply designates_here.
Defined.

(** A number under ["$ref"]. *)
Lemma non_string_reference_raises_witness :
  parse_schema repr_plain fs_empty 1 (JObj [("$ref", JNum 5)]) "" (JArr [])
    "root.json" new_visualizer = Raised AttributeError new_visualizer.
Proof.
  apply (non_string_reference_raises repr_plain fs_empty 0 [("$ref", JNum 5)]
           (JNum 5) "" (JArr []) "root.json" new_visualizer eq_refl).
  - intros ref. discriminate.
  - intros key _. apply not_elem_of_empty.
Defined.

(** A reference to [defs.json] as a whole. *)
Lemma whole_file_reference_witness :
  resolve_reference repr_plain fs_defs (JStr "defs.json") (JObj []) "root.json" new_visualizer
  = load_schema fs_defs "defs.json" new_visualizer.
Proof.
  apply (whole_file_reference repr_plain fs_defs "defs.json" (JObj []) "root.json"
           new_visualizer eq_refl eq_refl).
  apply not_elem_of_empty.
Defined.

(** A reference to a definition kept in [defs.json]. *)
Lemma file_fragment_reference_witness :
  resolve_reference repr_plain fs_defs (JStr "defs.json#/definitions/Name") (JObj [])
    "root.json" new_visualizer
  = Done (JObj [("type", JStr "string")])
      (set_schema_cache (insert "defs.json" with_definitions)
         (log (Opened "defs.json") new_visualizer)).
Proof.
  apply (proj1 (file_fragment_reference repr_plain fs_defs "defs.json"
                  "defs.json#/definitions/Name" "defs.json"
                  ["definitions"; "Name"] with_definitions (JObj []) "root.json"
                  new_visualizer eq_refl eq_refl ltac:(discriminate)
                  ltac:(repeat constructor) eq_refl eq_refl
                  ltac:(apply not_elem_of_empty) eq_refl eq_refl eq_refl)).
  eapply designates_step; [reflexivity|].
  eapply designates_step; [reflexivity|]. apply designates_here.
Defined.

(** Two loads of a file that does not exist. *)
Lemma load_schema_failure_not_cached_witness :
  ∃ self1 self2 : visualizer,
    load_schema fs_empty "missing.json" new_visualizer = Done (JObj []) self1
    ∧ load_schema fs_empty "missing.json" self1 = Done (JObj []) self2
    ∧ schema_cache self2 = schema_cache new_visualizer
    ∧ trace self2
      = [Printed "Warning: Could not find file: missing.json";
         Printed "Warning: Could not find file: missing.json"].
Proof.
  apply (proj1 (load_schema_failure_not_cached fs_empty "missing.json"
                  "missing.json" new_visualizer eq_refl eq_refl)).
  reflexivity.
Defined.

(** A run on a root file that does not exist. *)
Lemma visualize_schema_missing_root_witness :
  visualize_schema repr_plain fs_empty 1 "missing.json" new_visualizer
  = Done []
      (mkVisualizer ∅ ∅ []
         [Printed "Warning: Could not find file: missing.json"]).
Proof.
  apply (visualize_schema_missing_root repr_plain fs_empty 0 "missing.json"
           new_visualizer).
  reflexivity.
Defined.

(** A run on [root.json], which holds [id_and_tags]. *)
Lemma visualize_schema_declared_witness :
  ∃ (rows : list SchemaProperty) (self' : visualizer),
    visualize_schema repr_plain fs_root 12 "root.json" new_visualizer
    = Done rows self'
    ∧ map row_key rows = [("/", "id"); ("/", "tags")].
Proof.
  apply (visualize_schema_declared repr_plain fs_root 12 "root.json" id_and_tags
           new_visualizer eq_refl eq_refl).
  vm_compute. lia.
Defined.

(** A required array with a negative lower bound. *)
Lemma get_cardinality_bounds_witness :
  get_cardinality repr_plain
    (JObj [("type", JStr "array"); ("minItems", JNum (-2)); ("maxItems", JNull)])
    (JArr [JStr "tags"]) "tags" = Val "0..*".
Proof.
  apply (proj1 (get_cardinality_bounds repr_plain
                  [("type", JStr "array"); ("minItems", JNum (-2));
                   ("maxItems", JNull)]
                  [JStr "tags"] "tags" eq_refl (list_elem_of_here _ _))
           (-2)%Z "*" eq_refl).
  - lia.
  - left. split; [by right|reflexivity].
Defined.

(** A required array whose [minItems] is a string. *)
Lemma get_cardinality_raises_iff_witness :
  get_cardinality repr_plain
    (JObj [("type", JStr "array"); ("minItems", JStr "two")])
    (JArr [JStr "tags"]) "tags" = Exc TypeError.
Proof.
  apply (proj2 (get_cardinality_raises_iff repr_plain
                  [("type", JStr "array"); ("minItems", JStr "two")]
                  [JStr "tags"] "tags" TypeError)).
  split; [reflexivity|]. split; [reflexivity|].
  split; [apply list_elem_of_here|].
  exists (JStr "two"). split; [reflexivity|]. split; intros ?; discriminate.
Defined.

(** A type list with a number in it. *)
Lemma get_type_string_raises_iff_witness :
  get_type_string repr_plain (JObj [("type", JArr [JStr "string"; JNum 1])])
  = Exc TypeError.
Proof.
  apply (proj2 (get_type_string_raises_iff repr_plain
                  [("type", JArr [JStr "string"; JNum 1])] TypeError)).
  left. exists [JStr "string"; JNum 1]. repeat split; reflexivity.
Defined.

(** Both derivers on the [tags] property of [id_and_tags]. *)
Lemma derivers_total_on_well_formed_witness :
  (∃ t, get_type_string repr_plain
          (JObj [("type", JStr "array");
                 ("items", JObj [("type", JStr "string")]);
                 ("minItems", JNum 1)]) = Val t)
  ∧ ∃ card, get_cardinality repr_plain
              (JObj [("type", JStr "array");
                     ("items", JObj [("type", JStr "string")]);
                     ("minItems", JNum 1)])
              (JArr [JStr "id"]) "tags" = Val card.
Proof.
  destruct (derivers_total_on_well_formed repr_plain false
              (JObj [("type", JStr "array");
                     ("items", JObj [("type", JStr "string")]);
                     ("minItems", JNum 1)]) eq_refl) as [Htype Hcard].
  split; [exact Htype | exact (Hcard [JStr "id"] "tags")].
Defined.

(** [all_of_mapping]: the walker takes the key ["name"] for a branch. *)
Lemma combinator_not_a_list_witness :
  ∃ e : exn,
    (e = TypeError ∨ e = AttributeError)
    ∧ parse_schema repr_plain fs_empty 2 all_of_mapping "" (JArr []) "root.json"
        new_visualizer = Raised e new_visualizer.
Proof.
  apply (proj2 (proj2 (combinator_not_a_list repr_plain fs_empty 0
                         [("allOf", JObj [("name", JObj [("type", JStr "string")])])]
                         "allOf"
                         (JObj [("name", JObj [("type", JStr "string")])])
                         "" (JArr []) "root.json" new_visualizer
                         eq_refl eq_refl))).
  right. by eexists _, _.
Defined.

(** [properties] given as a list. *)
Lemma properties_or_items_not_a_mapping_witness :
  parse_schema repr_plain fs_empty 1 (JObj [("properties", JArr [])]) ""
    (JArr []) "root.json" new_visualizer = Raised AttributeError new_visualizer.
Proof.
  apply (proj1 (properties_or_items_not_a_mapping repr_plain fs_empty 0
                  [("properties", JArr [])] (JArr []) "" (JArr []) "root.json"
                  new_visualizer eq_refl eq_refl ltac:(discriminate))).
  reflexivity.
Defined.

(** ** The cache of loaded documents *)

Section Cache.

Variable repr_str : string → string.
Variable fs : FileSystem.

(** A load of a path that resolves to a cached key. *)
Lemma load_schema_hit (file_path cache_key : string) (doc : json)
    (self : visualizer) :
  resolve fs (fs_locate fs file_path) = Val cache_key →
  schema_cache self !! cache_key = Some doc →
  load_schema fs file_path self = Done doc self.
Proof.
  intros Hkey Hhit. unfold load_schema. rewrite Hkey, bind_lift_val.
  by rewrite Hhit.
Qed.

(** C8.  A file that parses and is not cached is opened once by its first
    load, which caches its document under the key its path resolves to.
    From any later state of the run that holds this entry: the entry is
    still there after any other load and after any walk, and the walk has
    not parsed the file again; every load of a path that resolves to the
    same key, and every reference to such a file, whole or with a
    fragment, returns the cached document or the fragment of it and leaves
    the visualizer and its trace as they were, so that nothing is opened.
    And in a whole run, from any visualizer, the file behind a key is
    parsed at most once. *)
Theorem load_schema_cached (file_path path cache_key : string) (doc : json)
    (self : visualizer) :
  path = fs_locate fs file_path →
  cache_key = fs_resolve fs path →
  fs_read fs path = Parses doc →
  schema_cache self !! cache_key = None →
  load_schema fs file_path self
  = Done doc (set_schema_cache (insert cache_key doc) (log (Opened path) self))
  ∧ (∀ later : visualizer,
       schema_cache later !! cache_key = Some doc →
       (∀ (other : string) (later' : visualizer),
          final (load_schema fs other later) = Some later' →
          schema_cache later' !! cache_key = Some doc)
       ∧ (∀ (fuel : nat) (schema : json) (at_path : string) (required : json)
            (current_file : string) (later' : visualizer),
            final (parse_schema repr_str fs fuel schema at_path required
                     current_file later) = Some later' →
            schema_cache later' !! cache_key = Some doc
            ∧ ∃ events : list event,
                trace later' = (trace later ++ events)%list
                ∧ parses_of fs cache_key events = 0%nat)
       ∧ (∀ file_path' : string,
            resolve fs (fs_locate fs file_path') = Val cache_key →
            load_schema fs file_path' later = Done doc later)
       ∧ (∀ (ref : string) (current_schema : json) (current_path : string),
            String.prefix "http" ref = false →
            AStr ref ∉ resolved_refs later →
            (str_contains "#/" ref = false →
             resolve fs (fs_locate fs (fs_sibling fs current_path ref))
             = Val cache_key →
             resolve_reference repr_str fs (JStr ref) current_schema current_path
               later = Done doc later)
            ∧ (∀ (file_part : string) (keys : list string) (frag : json),
                 ref = file_part ++ "#/" ++ str_join "/" keys →
                 String.prefix "#/" ref = false →
                 str_contains "#/" file_part = false →
                 keys ≠ [] →
                 Forall (fun k => str_contains "/" k = false) keys →
                 resolve fs (fs_locate fs (fs_sibling fs current_path file_part))
                 = Val cache_key →
                 designates doc keys frag →
                 resolve_reference repr_str fs (JStr ref) current_schema
                   current_path later = Done frag later)))
  ∧ (∀ (fuel : nat) (schema_file : string) (start final_self : visualizer),
       final (visualize_schema repr_str fs fuel schema_file start)
       = Some final_self →
       ∃ events : list event,
         trace final_self = (trace start ++ events)%list
         ∧ ∀ key : string, (parses_of fs key events ≤ 1)%nat).
Proof.
  intros Hpath Hkey Hread Hmiss. split; [|split].
  - rewrite load_schema_resolved
      by (intros e; rewrite <- Hpath, Hread; discriminate).
    by rewrite <- Hpath, <- Hkey, Hmiss, Hread.
  - intros later Hhit. split; [|split; [|split]].
    + intros other later' Hfinal.
      destruct (load_schema_keeps fs "" other later later' Hfinal)
        as (_ & Hsub & _).
      by eapply lookup_weaken.
    + intros fuel schema at_path required current_file later' Hfinal.
      destruct (parse_schema_keeps repr_str fs current_file fuel schema at_path
                  required later later' Hfinal)
        as (_ & Hsub & _ & (events & Htrace & Hparses) & _).
      split; [by eapply lookup_weaken|].
      exists events. split; [done|].
      destruct (Hparses cache_key) as (_ & Hbefore & _).
      apply Hbefore. by eexists.
    + intros file_path' Hk. by eapply load_schema_hit.
    + intros ref current_schema current_path Hhttp Hfresh. split.
      * intros Hwhole Hk.
        rewrite resolve_reference_str, bool_decide_eq_false_2 by done.
        rewrite resolve_body_str, (str_contains_prefix _ _ Hwhole), Hhttp,
          (str_split_once_none _ _ Hwhole).
        rewrite load_schema_guarded by done. by eapply load_schema_hit.
      * intros file_part keys frag Href Hint Hfp Hne Hall Hk Hfrag.
        rewrite resolve_reference_str, bool_decide_eq_false_2 by done.
        unfold try_finally. rewrite resolve_body_str, Hint, Hhttp.
        assert (Hsplit : str_split_once "#/" ref
                         = Some (file_part, str_join "/" keys))
          by (rewrite Href; by apply str_split_once_app).
        rewrite Hsplit. unfold mbind, method_bind.
        rewrite load_schema_set_refs.
        rewrite (load_schema_hit _ _ _ _ Hk Hhit). cbn [mret method_ret].
        rewrite (str_split_join "/" keys Hne Hall). unfold walk.
        apply descend_designates in Hfrag. rewrite Hfrag. f_equal.
        by apply set_resolved_refs_release.
  - intros fuel schema_file start final_self.
    unfold visualize_schema, mbind, method_bind, update, get_properties.
    pose proof (load_schema_keeps fs "" schema_file (reset start)) as Hload.
    destruct (load_schema fs schema_file (reset start)) as [schema self1|e self1|];
      [| |done].
    + specialize (Hload self1 eq_refl).
      pose proof (parse_schema_keeps repr_str fs schema_file fuel schema ""
                    (JArr []) self1) as Hwalk.
      destruct (parse_schema repr_str fs fuel schema "" (JArr []) schema_file
                  self1) as [[] self2|e self2|]; [| |done]; cbn; intros [= <-];
        destruct (extends_from_trans fs "" _ _ _ Hload (Hwalk _ eq_refl))
          as (_ & _ & _ & (events & Ht & Hparses) & _);
        exists events; (split; [done|]); intros key; by destruct (Hparses key).
    + cbn. intros [= <-].
      destruct (Hload self1 eq_refl) as (_ & _ & _ & (events & Ht & Hparses) & _).
      exists events. split; [done|]. intros key. by destruct (Hparses key).
Qed.

End Cache.

(** The run on [root.json], whose two properties refer to [defs.json]:
    the first load of [defs.json] opens it; with the entry in the cache,
    another load and a reference return the document and leave the
    visualizer as it was, also after the load of another file; and the
    run opens each of the two files once. *)
Lemma load_schema_cached_witness :
  let self1 :=
    set_schema_cache (insert "defs.json" with_definitions)
      (log (Opened "defs.json") new_visualizer) in
  load_schema fs_two "defs.json" new_visualizer = Done with_definitions self1
  ∧ (∃ self2 : visualizer,
       load_schema fs_two "root.json" self1 = Done two_file_references self2
       ∧ load_schema fs_two "defs.json" self2 = Done with_definitions self2
       ∧ resolve_reference repr_plain fs_two (JStr "defs.json#/definitions/Name")
           (JObj []) "root.json" self2
         = Done (JObj [("type", JStr "string")]) self2)
  ∧ (∃ final_self : visualizer,
       final (visualize_schema repr_plain fs_two 3 "root.json" new_visualizer)
       = Some final_self
       ∧ trace final_self = [Opened "root.json"; Opened "defs.json"]
       ∧ map row_key (properties final_self) = [("/", "first"); ("/", "second")]).
Proof.
  intros self1.
  destruct (load_schema_cached repr_plain fs_two "defs.json" "defs.json"
              "defs.json" with_definitions new_visualizer
              eq_refl eq_refl eq_refl eq_refl)
    as (Hfirst & Hlater & Hrun).
  split; [exact Hfirst|]. split.
  - set (self2 := set_schema_cache (insert "root.json" two_file_references)
                     (log (Opened "root.json") self1)).
    exists self2. split; [reflexivity|].
    destruct (Hlater self2 eq_refl) as (_ & _ & Hload & Href).
    split; [exact (Hload "defs.json" eq_refl)|].
    destruct (Href "defs.json#/definitions/Name" (JObj []) "root.json" eq_refl
                ltac:(apply not_elem_of_empty)) as [_ Hfragment].
    apply (Hfragment "defs.json" ["definitions"; "Name"]); try done.
    + by repeat constructor.
    + eapply designates_step; [reflexivity|].
      eapply designates_step; [reflexivity|]. apply designates_here.
  - eexists. split; [vm_compute; reflexivity|]. split; reflexivity.
Defined.
